(** * pip_package_manager: the cache, the registry client, the aggregator
      and the interactive shell of [main.py], embedded and verified.

    Conventions of the embedding.
    - A Python [str] is a [string]; its characters are read as code points
      below 256 (the output of [pip] and package names are ASCII).
    - The [info] dict ([latest_version], [all_versions] and, once cached,
      [timestamp]) is a record; the cache dict is a [gmap] keyed by name.
    - A naive [datetime] is the record of its fields, as Python stores it.
    - Effects are explicit: a program is a tree of atomic actions on a
      [state] (memory, cache file, trace of interactions with the outside
      world), run either alone or interleaved with others by a thread pool.
      Whatever the outside world answers (clock, subprocesses, menus,
      scheduler) is taken from an [environment] that sees the trace so far.
    - Library calls are taken at their contract: the stdout of a subprocess
      comes decoded, [json.load] gives back the mapping [json.dump] wrote,
      the terminal menu returns an index or [None]. [KeyboardInterrupt] and
      the styling of the menus are left out.
    - The cache file is what it reads as: a mapping, or text that is not
      JSON. [json.dump] walks the dict step by step and raises
      [RuntimeError] when the dict grows under it. What the file reads as
      after a write through a handle that was not alone on it is not
      computed: the environment says.

    The definitions come first, the facts and the theorems on the claims of
    the specification after them, and then what the code shows besides:
    the actions of the shell, the menus, the edges of the cache. *)

From Stdlib Require Import ZArith Lia Ascii String List Bool.
From stdpp Require Import base option list gmap strings.

Set Default Proof Using "Type".

(* ===================================================================== *)
(** * Python strings *)
(* ===================================================================== *)

Module Str.

(** [s.startswith(p)] *)
Fixpoint startswith (p s : string) : bool :=
  match p, s with
  | "", _ => true
  | String a p', String b s' => if decide (a = b) then startswith p' s' else false
  | String _ _, "" => false
  end.

(** [s[n:]] *)
Fixpoint drop (n : nat) (s : string) : string :=
  match n, s with
  | O, _ => s
  | S n', String _ s' => drop n' s'
  | S _, "" => ""
  end.

(** [sep in s] *)
Definition occurs (sep s : string) : Prop :=
  ∃ pre post, s = pre +:+ sep +:+ post.

(** [s.split(sep)] for a non-empty [sep]: the pieces between the matches
    of [sep] found scanning left to right, never overlapping. The result
    of [split_go] is the first piece and the list of the later ones;
    [skip] counts the characters of a matched [sep] still to pass over. *)
Fixpoint split_go (sep : string) (skip : nat) (s : string) : string * list string :=
  match s with
  | "" => ("", [])
  | String c s' =>
      match skip with
      | S k => split_go sep k s'
      | O =>
          if startswith sep s
          then let '(h, t) := split_go sep (String.length sep - 1) s' in ("", h :: t)
          else let '(h, t) := split_go sep 0 s' in (String c h, t)
      end
  end.

Definition split (sep s : string) : list string :=
  let '(h, t) := split_go sep 0 s in h :: t.

(** [str.isspace] on one character, for code points below 256. *)
Definition isspace (c : ascii) : bool :=
  let n := nat_of_ascii c in
  ((9 <=? n) && (n <=? 13)) || ((28 <=? n) && (n <=? 32))
  || (n =? 133) || (n =? 160).

(** [s.lstrip()], [s.rstrip()], [s.strip()] *)
Fixpoint lstrip (s : string) : string :=
  match s with
  | String c s' => if isspace c then lstrip s' else s
  | "" => ""
  end.

Fixpoint rstrip (s : string) : string :=
  match s with
  | String c s' =>
      match rstrip s' with
      | "" => if isspace c then "" else String c ""
      | r => String c r
      end
  | "" => ""
  end.

Definition strip (s : string) : string := rstrip (lstrip s).

Fixpoint repeat_space (n : nat) : string :=
  match n with O => "" | S n' => String " " (repeat_space n') end.

(** [s.ljust(w)] and [s.rjust(w)] *)
Definition ljust (w : nat) (s : string) : string :=
  s +:+ repeat_space (w - String.length s).
Definition rjust (w : nat) (s : string) : string :=
  repeat_space (w - String.length s) +:+ s.

(** [sep.join(l)] *)
Fixpoint join (sep : string) (l : list string) : string :=
  match l with
  | [] => ""
  | [x] => x
  | x :: l' => x +:+ sep +:+ join sep l'
  end.

(** Every character of [s] satisfies [p]. *)
Fixpoint all (p : ascii → bool) (s : string) : bool :=
  match s with
  | "" => true
  | String c s' => p c && all p s'
  end.

(** [s] neither starts nor ends with a whitespace character. *)
Definition stripped (s : string) : Prop :=
  (∀ c t, s = String c t → isspace c = false)
  ∧ (∀ t c, s = t +:+ String c "" → isspace c = false).

(** [s] is [pre], then an occurrence of [sep], then [rest], and no
    occurrence of [sep] in [s] starts further right than that one. *)
Definition last_occurrence (sep pre rest s : string) : Prop :=
  s = pre +:+ sep +:+ rest ∧ ¬ occurs sep (drop 1 (sep +:+ rest)).

(** A separator no proper shift of which matches itself: two of its
    occurrences in a text never overlap. *)
Definition border_free (sep : string) : bool :=
  forallb (λ d, negb (startswith (drop d sep) sep))
          (seq 1 (String.length sep - 1)).

End Str.

(* ===================================================================== *)
(** * [datetime]: naive datetimes, ISO-8601 text, differences *)
(* ===================================================================== *)

Module Datetime.

Local Open Scope Z_scope.

(** A naive [datetime.datetime], field by field. *)
Record datetime := {
  year : Z; month : Z; day : Z;
  hour : Z; minute : Z; second : Z; microsecond : Z
}.

Definition is_leap (y : Z) : bool :=
  (y mod 4 =? 0) && (negb (y mod 100 =? 0) || (y mod 400 =? 0)).

Definition days_in_month (y m : Z) : Z :=
  if m =? 2 then (if is_leap y then 29 else 28)
  else if (m =? 4) || (m =? 6) || (m =? 9) || (m =? 11) then 30
  else 31.

(** The values a [datetime] object can hold (MINYEAR = 1, MAXYEAR = 9999). *)
Definition valid (d : datetime) : bool :=
  (1 <=? year d) && (year d <=? 9999)
  && (1 <=? month d) && (month d <=? 12)
  && (1 <=? day d) && (day d <=? days_in_month (year d) (month d))
  && (0 <=? hour d) && (hour d <? 24)
  && (0 <=? minute d) && (minute d <? 60)
  && (0 <=? second d) && (second d <? 60)
  && (0 <=? microsecond d) && (microsecond d <? 1000000).

(** Days before January 1st of year [y], and before the first of month [m]. *)
Definition days_before_year (y : Z) : Z :=
  let y' := y - 1 in y' * 365 + y' / 4 - y' / 100 + y' / 400.

Fixpoint days_before_month_go (y : Z) (n : nat) : Z :=
  match n with
  | O => 0
  | S n' => days_before_month_go y n' + days_in_month y (Z.of_nat n)
  end.

Definition days_before_month (y m : Z) : Z :=
  days_before_month_go y (Z.to_nat (m - 1)).

(** [d.toordinal()] *)
Definition toordinal (d : datetime) : Z :=
  days_before_year (year d) + days_before_month (year d) (month d) + day d.

(** The instant of [d] in microseconds since 0001-01-01T00:00:00 minus a day. *)
Definition to_microseconds (d : datetime) : Z :=
  (((toordinal d * 24 + hour d) * 60 + minute d) * 60 + second d) * 1000000
  + microsecond d.

(** [a - b], a [timedelta], as its total number of microseconds;
    [timedelta]s compare as these totals do. *)
Definition sub (a b : datetime) : Z := to_microseconds a - to_microseconds b.

(** [timedelta(hours=h)] *)
Definition timedelta_hours (h : Z) : Z := h * 3600 * 1000000.
Definition timedelta_minutes (m : Z) : Z := m * 60 * 1000000.

Definition digit (n : Z) : ascii := ascii_of_nat (48 + Z.to_nat n).

Definition digit_value (c : ascii) : option Z :=
  let n := nat_of_ascii c in
  if ((48 <=? n) && (n <=? 57))%nat then Some (Z.of_nat n - 48) else None.

(** ["%0wd" % n] for [0 <= n < 10^w], the only values the fields of a valid
    datetime take at the widths [isoformat] uses. *)
Fixpoint zfill (w : nat) (n : Z) : string :=
  match w with
  | O => ""
  | S w' => String (digit (n / 10 ^ Z.of_nat w')) (zfill w' (n mod 10 ^ Z.of_nat w'))
  end.

(** [d.isoformat()] of a naive datetime:
    [YYYY-MM-DDTHH:MM:SS], followed by [.ffffff] unless [microsecond] is 0. *)
Definition isoformat (d : datetime) : string :=
  zfill 4 (year d) +:+ "-" +:+ zfill 2 (month d) +:+ "-" +:+ zfill 2 (day d)
  +:+ "T" +:+ zfill 2 (hour d) +:+ ":" +:+ zfill 2 (minute d)
  +:+ ":" +:+ zfill 2 (second d)
  +:+ (if microsecond d =? 0 then "" else "." +:+ zfill 6 (microsecond d)).

Fixpoint read_digits (w : nat) (acc : Z) (s : string) : option (Z * string) :=
  match w with
  | O => Some (acc, s)
  | S w' =>
      match s with
      | String c s' =>
          match digit_value c with
          | Some d => read_digits w' (acc * 10 + d) s'
          | None => None
          end
      | "" => None
      end
  end.

Definition expect (c : ascii) (s : string) : option string :=
  match s with
  | String c' s' => if decide (c = c') then Some s' else None
  | "" => None
  end.

(** [datetime.fromisoformat(s)] on the two layouts [isoformat] emits for
    naive datetimes, the only ones this program writes: a text in one of
    them is read as Python reads it. Python accepts more layouts (a space
    for the [T], a date alone, a UTC offset, ...); on those, and on the
    texts Python rejects with [ValueError], the result here is [None]. The
    theorems take a timestamp that is read here as a hypothesis; none
    concludes anything from a [None]. *)
Definition fromisoformat (s : string) : option datetime :=
  '(y, s) ← read_digits 4 0 s; s ← expect "-" s;
  '(mo, s) ← read_digits 2 0 s; s ← expect "-" s;
  '(d, s) ← read_digits 2 0 s; s ← expect "T" s;
  '(h, s) ← read_digits 2 0 s; s ← expect ":" s;
  '(mi, s) ← read_digits 2 0 s; s ← expect ":" s;
  '(se, s) ← read_digits 2 0 s;
  '(us, s) ← match s with
              | "" => Some (0, "")
              | _ => s ← expect "." s; read_digits 6 0 s
              end;
  let dt := {| year := y; month := mo; day := d;
               hour := h; minute := mi; second := se; microsecond := us |} in
  match s with
  | "" => if valid dt then Some dt else None
  | _ => None
  end.

End Datetime.

Import Datetime (datetime).

(* ===================================================================== *)
(** * Data model, state and environment *)
(* ===================================================================== *)

(** An installed distribution: [package.metadata['Name']], [package.version]. *)
Record Distribution := { Name : string; version : string }.

(** The dict built by [get_pypi_info] and kept in the cache. The key
    ['timestamp'] is absent until [PackageCache.set] adds it. *)
Record info := {
  latest_version : string;
  all_versions : list string;
  timestamp : option string
}.

#[global] Instance info_eq_dec : EqDecision info.
Proof. solve_decision. Defined.

(** What [get_package_info] returns: name, installed version, latest version. *)
Abbreviation package_tuple := (string * string * option string)%type.

(** [subprocess.CalledProcessError]: its [str(e)] and its [stderr]. *)
Record CalledProcessError := { cpe_str : string; cpe_stderr : string }.

Inductive exn :=
| KeyError (key : string)
| IndexError
| ValueError
| JSONDecodeError
| RuntimeError
| ProcessError (e : CalledProcessError).

(** How a computation ends. [OutOfFuel] is not a Python outcome: it marks a
    loop of the model cut off by its bound. *)
Inductive result (A : Type) :=
| Ok (a : A)
| Raise (e : exn)
| OutOfFuel.
Arguments Ok {A} a.
Arguments Raise {A} e.
Arguments OutOfFuel {A}.

(** Contents of [package_cache.json]. *)
Inductive file :=
| FileMissing                          (* no such file *)
| FileJson (m : gmap string info)      (* the JSON text of the mapping [m] *)
| FileNotJson.                         (* text [json.load] rejects, such as
                                          the empty file [open(.., 'w')] leaves *)

(** Interactions with the outside world, in the order they happen. *)
Inductive event :=
| EvNow                                          (* datetime.now() *)
| EvDistributions                                (* importlib.metadata.distributions() *)
| EvSubprocess (args : list string)              (* [sys.executable] + args *)
| EvMenu (title : string) (entries : list string)  (* TerminalMenu(..).show() *)
| EvPrint (s : string)
| EvInput (prompt : string)
| EvLogInfo (msg : string)
| EvLogError (msg : string)
| EvClear.                                       (* clear_screen() *)

Record state := {
  cache : gmap string info;   (* PackageCache.cache, shared by all threads *)
  cache_file : file;          (* package_cache.json *)
  writers : nat;              (* handles now open for writing on it *)
  torn : bool;                (* some handle now open overlapped another *)
  trace : list event
}.

(** The answers of the outside world, each a function of the trace so far. *)
Record environment := {
  now : list event → datetime;
  distributions : list event → list Distribution;
  (** stdout on exit status 0, the error raised under [check] otherwise *)
  subprocess : list event → list string → string + CalledProcessError;
  (** the index of the chosen entry, [None] when the menu is dismissed *)
  show : list event → string → list string → option nat;
  (** the thread indices in the order the pool lets them take a step *)
  schedule : list event → list nat;
  (** what [package_cache.json] reads as after a write that is not followed
      byte by byte here: through a handle that was open together with
      another, or of a dict whose entries were replaced during the dump *)
  garbled : list event → file
}.

Definition CACHE_EXPIRY : Z := Datetime.timedelta_hours 1.

(** [info['timestamp'] = t.isoformat()] *)
Definition stamp (t : datetime) (i : info) : info :=
  {| latest_version := latest_version i;
     all_versions := all_versions i;
     timestamp := Some (Datetime.isoformat t) |}.

Definition with_cache (c : gmap string info) (s : state) : state :=
  {| cache := c; cache_file := cache_file s; writers := writers s;
     torn := torn s; trace := trace s |}.

Definition log (ev : event) (s : state) : state :=
  {| cache := cache s; cache_file := cache_file s; writers := writers s;
     torn := torn s; trace := trace s ++ [ev] |}.

(** [open(cache_file, 'w')]: the file is truncated; the handle overlaps the
    ones already open, if any. *)
Definition open_w (s : state) : state :=
  {| cache := cache s; cache_file := FileNotJson; writers := S (writers s);
     torn := bool_decide (0 < writers s); trace := trace s |}.

(** What [json.dump] has written into its handle when the [with] block is
    left. *)
Inductive dumped :=
| Whole (m : gmap string info)   (* the JSON text of [m] *)
| Mixed                          (* the dict kept its size but entries were
                                    replaced during the walk: a text with
                                    values of before and of after *)
| Cut.                           (* the walk ended in [RuntimeError]: a text
                                    without its end *)

(** The close that ends the [with] block: what was written reaches the
    file. A handle that was alone on the file since it was opened leaves
    the text it was given; otherwise the environment says. *)
Definition close_w (E : environment) (d : dumped) (s : state) : state :=
  {| cache := cache s;
     cache_file := if torn s then garbled E (trace s)
                   else match d with
                        | Whole m => FileJson m
                        | Mixed => garbled E (trace s)
                        | Cut => FileNotJson
                        end;
     writers := pred (writers s); torn := torn s; trace := trace s |}.

(* ===================================================================== *)
(** * Programs: trees of atomic actions *)
(* ===================================================================== *)

(** A thread is what it has left to do: nothing, or an atomic action on the
    shared state followed by the rest. Between two atomic actions of a thread
    the pool may run actions of the others.

    The atomic actions are those of the statements of [main.py]: one read or
    one store of the cache dict, one reading of the clock, one subprocess
    run from start to end, one [open], one menu shown, one line printed.
    [json.dump] is not one of them: it walks the dict item by item, each
    [next] of the walk is a step, and so is the close that ends the [with]
    block. CPython may switch threads more often than that; the steps here
    are the points at which a thread reads or writes what the others see. *)
Inductive prog (A : Type) : Type :=
| Done (r : result A)
| Atomic {B : Type} (act : state → B * state) (k : B → prog A).
Arguments Done {A} r.
Arguments Atomic {A B} act k.

Definition ret {A} (a : A) : prog A := Done (Ok a).
Definition raise {A} (e : exn) : prog A := Done (Raise e).
Definition atomic {B} (act : state → B * state) : prog B := Atomic act ret.

Fixpoint bind {A B} (m : prog A) (f : A → prog B) : prog B :=
  match m with
  | Done (Ok a) => f a
  | Done (Raise e) => Done (Raise e)
  | Done OutOfFuel => Done OutOfFuel
  | Atomic act k => Atomic act (λ b, bind (k b) f)
  end.

#[global] Instance prog_ret : MRet prog := @ret.
#[global] Instance prog_bind : MBind prog := λ A B f m, bind m f.

(** [try: m  except subprocess.CalledProcessError as e: handler e] *)
Fixpoint try_except {A} (m : prog A) (handler : CalledProcessError → prog A) : prog A :=
  match m with
  | Done (Raise (ProcessError e)) => handler e
  | Done r => Done r
  | Atomic act k => Atomic act (λ b, try_except (k b) handler)
  end.

(** [with .. as f: body]: however the body ends, the handle is closed, in a
    step of its own, and an exception goes on after that. *)
Fixpoint on_exit {A} (body : prog A) (close : option A → state → state) : prog A :=
  match body with
  | Done (Ok a) => Atomic (λ s, (tt, close (Some a) s)) (λ _, Done (Ok a))
  | Done (Raise e) => Atomic (λ s, (tt, close None s)) (λ _, Done (Raise e))
  | Done OutOfFuel => Done OutOfFuel
  | Atomic act k => Atomic act (λ b, on_exit (k b) close)
  end.

(** A thread running alone, to its end. *)
Fixpoint run {A} (p : prog A) (s : state) : result A * state :=
  match p with
  | Done r => (r, s)
  | Atomic act k => let '(b, s') := act s in run (k b) s'
  end.

(** ** The thread pool *)

(** Thread [i] takes its next atomic action, if it has one left. *)
Definition pool_step {A} (i : nat) (ps : list (prog A)) (s : state)
  : list (prog A) * state :=
  match ps !! i with
  | Some (Atomic act k) => let '(b, s') := act s in (<[i := k b]> ps, s')
  | _ => (ps, s)
  end.

Fixpoint pool_run {A} (sched : list nat) (ps : list (prog A)) (s : state)
  : list (prog A) * state :=
  match sched with
  | [] => (ps, s)
  | i :: sched' => let '(ps', s') := pool_step i ps s in pool_run sched' ps' s'
  end.

(** Leaving the [with ThreadPoolExecutor] block waits for every thread: what
    the schedule left undone is run to its end, thread after thread. (When
    a result is an exception Python cancels the calls that have not begun,
    and there are such calls only beyond [MAX_WORKERS] packages. They come
    later in the list than the exception, so the result of the block is the
    same; the state is the real one when the block returns a list.) *)
Fixpoint pool_join {A} (ps : list (prog A)) (s : state) : list (result A) * state :=
  match ps with
  | [] => ([], s)
  | p :: ps' =>
      let '(r, s1) := run p s in
      let '(rs, s2) := pool_join ps' s1 in
      (r :: rs, s2)
  end.

(** [list(results)]: the results in the order of the inputs; the first one
    that is an exception is raised again. *)
Fixpoint collect {A} (rs : list (result A)) : result (list A) :=
  match rs with
  | [] => Ok []
  | Ok a :: rs' =>
      match collect rs' with
      | Ok l => Ok (a :: l)
      | Raise e => Raise e
      | OutOfFuel => OutOfFuel
      end
  | Raise e :: _ => Raise e
  | OutOfFuel :: _ => OutOfFuel
  end.

Definition pool_exec {A} (sched : list nat) (ps : list (prog A)) (s : state)
  : list (result A) * state :=
  let '(ps', s') := pool_run sched ps s in pool_join ps' s'.

(* ===================================================================== *)
(** * The program *)
(* ===================================================================== *)

Section Program.

Variable E : environment.

(** ** Primitives *)

Definition out_of_fuel {A} : prog A := Done OutOfFuel.

(** [datetime.now()] *)
Definition datetime_now : prog datetime :=
  atomic (λ s, (now E (trace s), log EvNow s)).

Definition print (msg : string) : prog unit :=
  atomic (λ s, (tt, log (EvPrint msg) s)).

Definition input (prompt : string) : prog unit :=
  atomic (λ s, (tt, log (EvInput prompt) s)).

Definition logging_info (msg : string) : prog unit :=
  atomic (λ s, (tt, log (EvLogInfo msg) s)).

Definition logging_error (msg : string) : prog unit :=
  atomic (λ s, (tt, log (EvLogError msg) s)).

Definition clear_screen : prog unit :=
  atomic (λ s, (tt, log EvClear s)).

(** [subprocess.check_output], [check_call] and [run(.., check=True)] of
    [sys.executable] with the given arguments. *)
Definition check_output (args : list string) : prog string :=
  r ← atomic (λ s, (subprocess E (trace s) args, log (EvSubprocess args) s));
  match r with
  | inl out => ret out
  | inr e => raise (ProcessError e)
  end.

Definition check_call (args : list string) : prog unit :=
  check_output args;; ret tt.

(** [TerminalMenu(entries, title=title, ..).show()] *)
Definition TerminalMenu_show (title : string) (entries : list string) : prog (option nat) :=
  atomic (λ s, (show E (trace s) title entries, log (EvMenu title entries) s)).

(** [l[i]] *)
Definition list_getitem {A} (l : list A) (i : nat) : prog A :=
  match l !! i with
  | Some x => ret x
  | None => raise IndexError
  end.

(** [max(l)] *)
Definition py_max (l : list nat) : prog nat :=
  match l with
  | [] => raise ValueError
  | x :: l' => ret (foldl Nat.max x l')
  end.

(** [str(x)] for [x : Optional[str]], and [a or b] on strings. *)
Definition py_str (x : option string) : string :=
  match x with
  | Some v => v
  | None => "None"
  end.

Definition py_or (a b : string) : string :=
  match a with
  | "" => b
  | _ => a
  end.

Definition Fore_GREEN : string := String "027" "[32m".
Definition Fore_RED : string := String "027" "[31m".
Definition Style_RESET_ALL : string := String "027" "[0m".

(** ** class PackageCache *)

(** [self.cache[package_name]] *)
Definition cache_getitem (package_name : string) : prog info :=
  e ← atomic (λ s, (cache s !! package_name, s));
  match e with
  | Some entry => ret entry
  | None => raise (KeyError package_name)
  end.

Definition PackageCache_load : prog (gmap string info) :=
  f ← atomic (λ s, (cache_file s, s));
  match f with
  | FileMissing => ret ∅
  | FileJson m => ret m
  | FileNotJson => raise JSONDecodeError
  end.

(** [__init__]: [self.cache = self.load()] *)
Definition PackageCache_init : prog unit :=
  m ← PackageCache_load;
  atomic (λ s, (tt, with_cache m s)).

(** The walk of [json.dump] over [self.cache.items()]. The encoder is a
    generator: between two items it hands a piece of text to [f.write], and
    other threads may run. Every [next] of the walk, the last one that ends
    it included, first compares the size of the dict with the size it had
    when the walk began, and raises [RuntimeError] ("dictionary changed size
    during iteration") when they differ. [same] records whether the dict
    was, at every step so far, the one the walk began on. *)
Fixpoint walk (steps : nat) (began_on : gmap string info) (same : bool) : prog bool :=
  match steps with
  | O => ret same
  | S steps' =>
      c ← atomic (λ s, (cache s, s));
      if bool_decide (size c = size began_on)
      then walk steps' began_on (same && bool_decide (c = began_on))
      else raise RuntimeError
  end.

(** [json.dump(self.cache, f)]: an empty dict is written as [{}] at once;
    otherwise the walk takes one [next] per item and one more to end. *)
Definition json_dump : prog dumped :=
  empty ← atomic (λ s, (bool_decide (cache s = ∅), s));
  if (empty : bool) then ret (Whole ∅)
  else
    began_on ← atomic (λ s, (cache s, s));
    same ← walk (S (size began_on)) began_on true;
    ret (if (same : bool) then Whole began_on else Mixed).

Definition PackageCache_save : prog unit :=
  atomic (λ s, (tt, open_w s));;                       (* with open(.., 'w') as f: *)
  on_exit json_dump (λ d, close_w E (default Cut d));; (*     json.dump(self.cache, f) *)
  ret tt.

Definition PackageCache_get (package_name : string) : prog (option info) :=
  present ← atomic (λ s, (bool_decide (is_Some (cache s !! package_name)), s));
  if (present : bool) then
    entry ← cache_getitem package_name;
    ts ← match timestamp entry with
         | Some ts => ret ts
         | None => raise (KeyError "timestamp")
         end;
    cached_time ← match Datetime.fromisoformat ts with
                  | Some t => ret t
                  | None => raise ValueError
                  end;
    t ← datetime_now;
    if (Datetime.sub t cached_time <? CACHE_EXPIRY)%Z
    then entry ← cache_getitem package_name; ret (Some entry)
    else ret None
  else ret None.

(** [set] adds the key ['timestamp'] to the dict it is given and stores that
    same dict; the value returned here is the dict as the caller sees it
    afterwards. *)
Definition PackageCache_set (package_name : string) (i : info) : prog info :=
  t ← datetime_now;
  let i := stamp t i in
  atomic (λ s, (tt, with_cache (<[package_name := i]> (cache s)) s));;
  PackageCache_save;;
  ret i.

(** ** class PackageManager *)

Definition get_installed_packages : prog (list Distribution) :=
  atomic (λ s, (distributions E (trace s), log EvDistributions s)).

Definition pip_index_versions (package_name : string) : list string :=
  ["-m"; "pip"; "index"; "versions"; package_name].

(** Line 80: [output.decode().split('Available versions: ')[-1].strip().split(', ')] *)
Definition parse_versions (output : string) : prog (list string) :=
  tail ← match last (Str.split "Available versions: " output) with
         | Some x => ret x
         | None => raise IndexError
         end;
  ret (Str.split ", " (Str.strip tail)).

(** Line 81: [{"latest_version": versions[0], "all_versions": versions} if versions else None] *)
Definition versions_info (versions : list string) : option info :=
  match versions with
  | v0 :: _ => Some {| latest_version := v0; all_versions := versions;
                       timestamp := None |}
  | [] => None
  end.

Definition get_pypi_info (package_name : string) : prog (option info) :=
  try_except
    (output ← check_output (pip_index_versions package_name);
     versions ← parse_versions output;
     ret (versions_info versions))
    (λ _, ret None).

Definition get_package_info (package : Distribution) : prog package_tuple :=
  let name := Name package in
  let installed_version := version package in
  pypi_info ← PackageCache_get name;
  pypi_info ← match pypi_info return prog (option info) with
              | Some i => ret (Some i)
              | None =>
                  pypi_info ← get_pypi_info name;
                  match pypi_info with
                  | Some i => i ← PackageCache_set name i; ret (Some i)
                  | None => ret None
                  end
              end;
  let latest_version := latest_version <$> (pypi_info : option info) in
  ret (name, installed_version, latest_version).

(** [with ThreadPoolExecutor(..) as executor: list(executor.map(f, xs))].
    For the calling thread the whole block is one step. The bound
    [MAX_WORKERS] on the threads in flight only rules schedules out. *)
Definition executor_map {A B} (f : A → prog B) (xs : list A) : prog (list B) :=
  rs ← atomic (λ s, pool_exec (schedule E (trace s)) (f <$> xs) s);
  Done (collect rs).

Definition max_name_length (package_info : list package_tuple) : prog nat :=
  py_max ((λ '(name, _, _), String.length name) <$> package_info).

Definition max_version_length (package_info : list package_tuple) : prog nat :=
  py_max ((λ '(_, installed, latest),
             Nat.max (String.length installed)
                     (String.length (py_or (py_str latest) "")))
          <$> package_info).

Definition status_line (max_name_length max_version_length : nat)
    (p : package_tuple) : string :=
  let '(name, installed_version, latest_version) := p in
  let name_formatted := Str.ljust max_name_length name in
  let installed_formatted := Str.rjust max_version_length installed_version in
  match latest_version with
  | Some latest =>
      if bool_decide (latest ≠ "" ∧ latest ≠ installed_version)
      then name_formatted +:+ " " +:+ installed_formatted +:+ " → "
           +:+ Str.rjust max_version_length latest
      else name_formatted +:+ " " +:+ installed_formatted
  | None => name_formatted +:+ " " +:+ installed_formatted
  end.

(** Lines 106-121: the column widths and the menu lines. *)
Definition format_menu_items (package_info : list package_tuple) : prog (list string) :=
  max_name_length ← max_name_length package_info;
  max_version_length ← max_version_length package_info;
  ret (status_line max_name_length max_version_length <$> package_info).

(** Lines 103-104, the aggregation that the specification calls [enrich]:
    [get_package_info] over all the packages, in the threads of the pool. *)
Definition aggregate (packages : list Distribution) : prog (list package_tuple) :=
  executor_map get_package_info packages.

Definition display_packages (packages : list Distribution) : prog (list string) :=
  print "Fetching package information...";;
  package_info ← aggregate packages;
  menu_items ← format_menu_items package_info;
  clear_screen;;
  ret menu_items.

Definition upgrade_package (package_name : string) : prog bool :=
  try_except
    (check_call ["-m"; "pip"; "install"; "--upgrade"; package_name];;
     logging_info ("Successfully upgraded " +:+ package_name);;
     print (Fore_GREEN +:+ "Successfully upgraded " +:+ package_name +:+ Style_RESET_ALL);;
     ret true)
    (λ e,
     logging_error ("Failed to upgrade " +:+ package_name +:+ ": " +:+ cpe_str e);;
     print (Fore_RED +:+ "Failed to upgrade " +:+ package_name +:+ Style_RESET_ALL);;
     input "Press Enter to continue...";;
     ret false).

Definition install_specific_version (package_name version : string) : prog bool :=
  try_except
    (print ("Attempting to install " +:+ package_name +:+ "==" +:+ version);;
     check_call ["-m"; "pip"; "install"; package_name +:+ "==" +:+ version];;
     logging_info ("Successfully installed " +:+ package_name +:+ " version " +:+ version);;
     print (Fore_GREEN +:+ "Successfully installed " +:+ package_name
            +:+ " version " +:+ version +:+ Style_RESET_ALL);;
     ret true)
    (λ e,
     let error_message := py_or (cpe_stderr e) (cpe_str e) in
     logging_error ("Failed to install " +:+ package_name +:+ " version " +:+ version
                    +:+ ": " +:+ error_message);;
     print (Fore_RED +:+ "Failed to install " +:+ package_name +:+ " version "
            +:+ version +:+ Style_RESET_ALL);;
     print ("Error: " +:+ error_message);;
     print "Please try a different version.";;
     input "Press Enter to continue...";;
     ret false).

Definition uninstall_package (package_name : string) : prog bool :=
  try_except
    (check_call ["-m"; "pip"; "uninstall"; "-y"; package_name];;
     logging_info ("Successfully uninstalled " +:+ package_name);;
     print (Fore_GREEN +:+ "Successfully uninstalled " +:+ package_name +:+ Style_RESET_ALL);;
     ret true)
    (λ e,
     logging_error ("Failed to uninstall " +:+ package_name +:+ ": " +:+ cpe_str e);;
     print (Fore_RED +:+ "Failed to uninstall " +:+ package_name +:+ Style_RESET_ALL);;
     input "Press Enter to continue...";;
     ret false).

(** The [while True] of [downgrade_package], at most [fuel] rounds. *)
Fixpoint downgrade_loop (fuel : nat) (package_name title : string)
    (versions : list string) : prog bool :=
  match fuel with
  | O => out_of_fuel
  | S fuel' =>
      choice_index ← TerminalMenu_show title versions;
      match choice_index with
      | None => ret false
      | Some i =>
          version ← list_getitem versions i;
          if bool_decide (version = "Back") then ret false
          else
            ok ← install_specific_version package_name version;
            if (ok : bool) then ret true
            else downgrade_loop fuel' package_name title versions
      end
  end.

Definition downgrade_package (fuel : nat) (package_name : string) : prog bool :=
  print ("Fetching available versions for " +:+ package_name +:+ "...");;
  cached ← PackageCache_get package_name;
  pypi_info ← match cached return prog (option info) with
              | Some i => ret (Some i)
              | None => get_pypi_info package_name
              end;
  match pypi_info with
  | None =>
      print (Fore_RED +:+ "No versions available for " +:+ package_name +:+ Style_RESET_ALL);;
      input "Press Enter to continue...";;
      ret false
  | Some i =>
      let versions := "Back" :: all_versions i in
      installed ← get_installed_packages;
      let current_version :=
        version <$> head (filter (λ p, Name p = package_name) installed) in
      downgrade_loop fuel package_name
        ("Select version to downgrade " +:+ package_name +:+ " (Current: "
         +:+ py_str current_version +:+ ")")
        versions
  end.

(** ** The interactive shell *)

Definition options : list string := ["Upgrade"; "Downgrade"; "Uninstall"; "Back"].

Fixpoint package_options (fuel : nat) (package_name : string) : prog bool :=
  match fuel with
  | O => out_of_fuel
  | S fuel' =>
      choice_index ← TerminalMenu_show ("Options for " +:+ package_name) options;
      match choice_index with
      | None => ret false
      | Some i =>
          choice ← list_getitem options i;
          if bool_decide (choice = "Back") then ret false
          else
            ok ← (if bool_decide (choice = "Upgrade") then upgrade_package package_name
                  else if bool_decide (choice = "Downgrade")
                       then downgrade_package fuel' package_name
                  else if bool_decide (choice = "Uninstall")
                       then uninstall_package package_name
                  else ret false);
            if (ok : bool) then ret true
            else package_options fuel' package_name
      end
  end.

(** The [while True] of [main], at most [fuel] rounds. *)
Fixpoint main_loop (fuel : nat) : prog unit :=
  match fuel with
  | O => out_of_fuel
  | S fuel' =>
      clear_screen;;
      packages ← get_installed_packages;
      menu_items ← display_packages packages;
      let menu_items := menu_items ++ ["Quit"] in
      choice_index ← TerminalMenu_show "Python Package Manager" menu_items;
      match choice_index with
      | None => print "Exiting the package manager."
      | Some i =>
          item ← list_getitem menu_items i;
          if bool_decide (item = "Quit") then print "Exiting the package manager."
          else
            package ← list_getitem packages i;
            let selected_package := Name package in
            refresh ← package_options fuel' selected_package;
            if (refresh : bool)
            then main_loop fuel'      (* continue  # Refresh main menu *)
            else main_loop fuel'      (* end of the loop body *)
      end
  end.

Definition main (fuel : nat) : prog unit :=
  PackageCache_init;;                 (* manager = PackageManager() *)
  main_loop fuel.

End Program.

(* ===================================================================== *)
(** * Vocabulary of the specification *)
(* ===================================================================== *)

#[global] Instance CalledProcessError_eq_dec : EqDecision CalledProcessError.
Proof. solve_decision. Defined.

#[global] Instance event_eq_dec : EqDecision event.
Proof. solve_decision. Defined.

(** The time a cache entry was fetched, when its timestamp reads as one. *)
Definition cached_time (e : info) : option datetime :=
  timestamp e ≫= Datetime.fromisoformat.

(** At time [t] the entry is within its time to live, or past it. *)
Definition fresh (t : datetime) (e : info) : Prop :=
  ∃ t0, cached_time e = Some t0 ∧ (Datetime.sub t t0 < CACHE_EXPIRY)%Z.

Definition expired (t : datetime) (e : info) : Prop :=
  ∃ t0, cached_time e = Some t0 ∧ (CACHE_EXPIRY ≤ Datetime.sub t t0)%Z.

(** Every entry carries a timestamp that reads as a datetime, as the
    entries written by [PackageCache.set] do. *)
Definition cache_wf (c : gmap string info) : Prop :=
  ∀ name e, c !! name = Some e → is_Some (cached_time e).

(** How often the registry was queried for a package along a trace. *)
Definition registry_calls (package_name : string) (tr : list event) : nat :=
  length (filter (λ ev, ev = EvSubprocess (pip_index_versions package_name)) tr).

(** A process that has just started: nothing in memory yet, the cache file
    and the history of the world as they are. *)
Definition fresh_process (f : file) (tr : list event) : state :=
  {| cache := ∅; cache_file := f; writers := 0; torn := false; trace := tr |}.

(** The state [PackageCache.set] leaves when it runs alone, with no handle
    open on the cache file, and reads [t] off the clock. *)
Definition after_set (t : datetime) (name : string) (i : info) (s : state) : state :=
  {| cache := <[name := stamp t i]> (cache s);
     cache_file := FileJson (<[name := stamp t i]> (cache s));
     writers := writers s; torn := false; trace := trace s ++ [EvNow] |}.

(** ** Threads under interference

    [safe G P p Q]: from any state satisfying [P], every atomic action of
    the thread [p] changes the state within the guarantee [G], and the
    thread ends with a result and in a state related by [Q], whatever
    actions within [G] other threads take between its own. Assertions on
    the shared state are kept only when [stable] under [G]. *)

Definition stable (G : state → state → Prop) (P : state → Prop) : Prop :=
  ∀ s s', P s → G s s' → P s'.

Fixpoint safe {A} (G : state → state → Prop) (P : state → Prop)
    (p : prog A) (Q : result A → state → Prop) : Prop :=
  match p with
  | Done r => ∀ s, P s → Q r s
  | Atomic act k =>
      ∀ s, P s →
        G s (act s).2
        ∧ ∃ P', stable G P' ∧ P' (act s).2 ∧ safe G P' (k (act s).1) Q
  end.

(** Every thread of the pool is safe for its own postcondition. *)
Definition pool_ok {A} (G : state → state → Prop)
    (Qs : list (result A → state → Prop)) (ps : list (prog A)) (s : state) : Prop :=
  Forall2 (λ Q p, ∃ P, stable G P ∧ P s ∧ safe G P p Q) Qs ps.

(** Every query of the registry for [n] fails, or succeeds, whenever made. *)
Definition always_fails (E : environment) (n : string) : Prop :=
  ∀ tr, ∃ e, subprocess E tr (pip_index_versions n) = inr e.

Definition always_succeeds (E : environment) (n : string) : Prop :=
  ∀ tr, ∃ out, subprocess E tr (pip_index_versions n) = inl out.

(** The cache [c] has nothing to offer for [n]: no entry, or one that is
    expired whenever the clock is read. *)
Definition stale (E : environment) (c : gmap string info) (n : string) : Prop :=
  c !! n = None ∨ ∃ entry, c !! n = Some entry ∧ ∀ tr, expired (now E tr) entry.

(** The guarantee of the threads of the aggregator: cache entries stay well
    formed, none is ever removed, and the entry of a package whose queries
    always fail is left as it is. In a [warm] batch, one that adds no key,
    the dict keeps its size. *)
Definition guar (E : environment) (warm : Prop) (s s' : state) : Prop :=
  (cache_wf (cache s) → cache_wf (cache s'))
  ∧ (∀ n, is_Some (cache s !! n) → is_Some (cache s' !! n))
  ∧ (∀ n, always_fails E n → cache s' !! n = cache s !! n)
  ∧ (warm → size (cache s') = size (cache s)).

(** [began] is the cache the batch began on. *)
Definition inv (E : environment) (began : gmap string info) (s : state) : Prop :=
  cache_wf (cache s) ∧ ∀ n, always_fails E n → cache s !! n = began !! n.

(** What the thread of the package named [n] relies on. *)
Definition worker_pre (E : environment) (warm : Prop) (began : gmap string info)
    (n : string) (s : state) : Prop :=
  inv E began s ∧ (warm → is_Some (cache s !! n) ∨ always_fails E n).

(** A thread ends with a result, or with the [RuntimeError] of a dump that
    saw the dict grow, which no warm batch has. *)
Definition or_dict_changed {A} (warm : Prop) (φ : A → Prop) (r : result A) : Prop :=
  (∃ a, r = Ok a ∧ φ a) ∨ (r = Raise RuntimeError ∧ ¬ warm).

(** The tuple of package [p]: its name and installed version; no latest
    version when its queries fail and the cache had nothing to offer; a
    latest version when its queries succeed. *)
Definition tuple_of (E : environment) (began : gmap string info) (p : Distribution)
    (t : package_tuple) : Prop :=
  ∃ latest, t = (Name p, version p, latest)
            ∧ (always_fails E (Name p) → stale E began (Name p) → latest = None)
            ∧ (always_succeeds E (Name p) → is_Some latest).

(** What the thread of package [p] returns. *)
Definition worker_post (E : environment) (warm : Prop) (began : gmap string info)
    (p : Distribution) (r : result package_tuple) (s : state) : Prop :=
  or_dict_changed warm (tuple_of E began p) r.

Definition get_post (E : environment) (warm : Prop) (began : gmap string info)
    (n : string) (r : result (option info)) (s : state) : Prop :=
  worker_pre E warm began n s
  ∧ ∃ o, r = Ok o ∧ (always_fails E n → stale E began n → o = None).

Definition lookup_post (E : environment) (warm : Prop) (began : gmap string info)
    (n : string) (r : result (option info)) (s : state) : Prop :=
  worker_pre E warm began n s
  ∧ ∃ o, r = Ok o ∧ (is_Some o → ¬ always_fails E n)
                  ∧ (always_succeeds E n → is_Some o).

Definition dump_post {A} (E : environment) (warm : Prop) (began : gmap string info)
    (r : result A) (s : state) : Prop :=
  inv E began s ∧ or_dict_changed warm (λ _, True) r.

(** Every atomic action of the program is within [G], whatever the state
    and whatever was answered before, and the program can only end with a
    result in [Q]. *)
Fixpoint within {A} (G : state → state → Prop) (Q : result A → Prop) (p : prog A) : Prop :=
  match p with
  | Done r => Q r
  | Atomic act k => (∀ s, G s (act s).2) ∧ ∀ b, within G Q (k b)
  end.

(** The entry under [m] is left as it is. *)
Definition keeps (m : string) (s s' : state) : Prop :=
  cache s' !! m = cache s !! m.

(** A result that is a tuple is the tuple of [p], whatever its last field. *)
Definition describes (p : Distribution) (r : result package_tuple) : Prop :=
  match r with
  | Ok t => ∃ latest, t = (Name p, version p, latest)
  | Raise _ => True
  | OutOfFuel => False
  end.

(** The batch adds no key to the cache: every package has an entry already,
    or queries that always fail. *)
Definition warm_batch (E : environment) (c : gmap string info)
    (packages : list Distribution) : Prop :=
  ∀ p, p ∈ packages → is_Some (c !! Name p) ∨ always_fails E (Name p).

(** ** The main loop *)

(** One round of the main loop up to the main menu: the screen is cleared,
    the installed packages are enumerated and aggregated. *)
Definition refresh (E : environment) : prog (list Distribution * list string) :=
  clear_screen;;
  packages ← get_installed_packages E;
  menu_items ← display_packages E packages;
  ret (packages, menu_items ++ ["Quit"]).

(** ** The registry client as the specification words it

    The text after the first occurrence of the label, split on [", "]; the
    first entry is the latest version. To be compared with [get_pypi_info]. *)

Fixpoint after_first (label s : string) : option string :=
  if Str.startswith label s then Some (Str.drop (String.length label) s)
  else match s with
       | String _ s' => after_first label s'
       | "" => None
       end.

Definition spec_fetchVersions (stdout : string) : option info :=
  rest ← after_first "Available versions: " stdout;
  versions_info (Str.split ", " rest).

(** ** The shell and the cache *)

(** [s] after the events [evs], nothing else changed. *)
Definition logs (evs : list event) (s : state) : state :=
  {| cache := cache s; cache_file := cache_file s; writers := writers s;
     torn := torn s; trace := trace s ++ evs |}.

(** All of the state but the trace: the cache in memory and on disk. *)
Definition store (s : state) : gmap string info * file * nat * bool :=
  (cache s, cache_file s, writers s, torn s).

(** A program whose every atomic action leaves the [store] alone and only
    adds to the trace. *)
Fixpoint quiet {A} (p : prog A) : Prop :=
  match p with
  | Done _ => True
  | Atomic act k =>
      (∀ s, store (act s).2 = store s ∧ trace s `prefix_of` trace (act s).2)
      ∧ ∀ b, quiet (k b)
  end.

(** The commands of the installer that change what is installed. *)
Definition pip_upgrade (package_name : string) : list string :=
  ["-m"; "pip"; "install"; "--upgrade"; package_name].

Definition pip_install_version (package_name version : string) : list string :=
  ["-m"; "pip"; "install"; package_name +:+ "==" +:+ version].

Definition pip_uninstall (package_name : string) : list string :=
  ["-m"; "pip"; "uninstall"; "-y"; package_name].

Definition is_installer_command (package_name : string) (args : list string) : Prop :=
  args = pip_upgrade package_name
  ∨ (∃ version, args = pip_install_version package_name version)
  ∨ args = pip_uninstall package_name.

(** Between the traces [tr] and [tr'] an installer command for the package
    was run and exited with status 0. *)
Definition installer_succeeded (E : environment) (package_name : string)
    (tr tr' : list event) : Prop :=
  ∃ pre post args out,
    tr' = pre ++ EvSubprocess args :: post
    ∧ tr `prefix_of` pre
    ∧ is_installer_command package_name args
    ∧ subprocess E pre args = inl out.

Definition press_enter : event := EvInput "Press Enter to continue...".

Definition attempting (name v : string) : event :=
  EvPrint ("Attempting to install " +:+ name +:+ "==" +:+ v).

(** The argument lists of the subprocesses run along a trace. *)
Fixpoint commands (evs : list event) : list (list string) :=
  match evs with
  | [] => []
  | EvSubprocess args :: evs' => args :: commands evs'
  | _ :: evs' => commands evs'
  end.

Definition fetching_versions (package_name : string) : event :=
  EvPrint ("Fetching available versions for " +:+ package_name +:+ "...").

(** The title of the version menu of [downgrade_package], given what
    [get_installed_packages] returned. *)
Definition downgrade_title (package_name : string) (installed : list Distribution)
  : string :=
  "Select version to downgrade " +:+ package_name +:+ " (Current: "
  +:+ py_str (version <$> head (filter (λ p, Name p = package_name) installed))
  +:+ ")".

(** A guarantee of threads that only read: the [store] is left alone and no
    subprocess is run. *)
Definition reads_only (s s' : state) : Prop :=
  store s' = store s ∧ commands (trace s') = commands (trace s).

(* ===================================================================== *)
(** * Sample worlds *)
(* ===================================================================== *)

Module Sample.

Definition noon : datetime :=
  {| Datetime.year := 2024; Datetime.month := 5; Datetime.day := 1;
     Datetime.hour := 12; Datetime.minute := 0; Datetime.second := 0;
     Datetime.microsecond := 0 |}.

Definition at_time (h m : Z) : datetime :=
  {| Datetime.year := 2024; Datetime.month := 5; Datetime.day := 1;
     Datetime.hour := h; Datetime.minute := m; Datetime.second := 0;
     Datetime.microsecond := 0 |}.

Definition is_now (ev : event) : bool :=
  match ev with EvNow => true | _ => false end.

Definition is_menu (ev : event) : bool :=
  match ev with EvMenu _ _ => true | _ => false end.

Definition is_enumeration (ev : event) : bool :=
  match ev with EvDistributions => true | _ => false end.

Definition is_aggregation (ev : event) : bool :=
  bool_decide (ev = EvPrint "Fetching package information...").

Definition is_upgrade (ev : event) : bool :=
  match ev with
  | EvSubprocess args => bool_decide (take 4 args = ["-m"; "pip"; "install"; "--upgrade"])
  | _ => false
  end.

Definition count (p : event → bool) (tr : list event) : nat :=
  length (List.filter p tr).

Definition newline : string := String "010" "".

(** What [pip index versions requests] prints. *)
Definition stdout_requests : string :=
  "requests (2.31.0)" +:+ newline
  +:+ "Available versions: 2.31.0, 2.30.0, 2.29.0" +:+ newline.

Definition stdout_six : string :=
  "six (1.16.0)" +:+ newline +:+ "Available versions: 1.16.0, 1.15.0" +:+ newline.

Definition exit_status_1 : CalledProcessError :=
  {| cpe_str := "Command returned non-zero exit status 1."; cpe_stderr := "" |}.

Definition requests : Distribution := {| Name := "requests"; version := "2.28.0" |}.
Definition ghost : Distribution := {| Name := "ghost"; version := "0.1" |}.
Definition six : Distribution := {| Name := "six"; version := "1.16.0" |}.

(** A world in which the k-th reading of the clock is the k-th of
    [readings] ([noon] once they are used up), the registry knows
    [requests] and [six] and nothing else, upgrades succeed and other
    installer commands fail, the user makes the choices of [script] one
    menu after the other and then dismisses every menu, and the pool
    follows [sched]. *)
Definition world (readings : list datetime) (script : list (option nat))
    (sched : list nat) : environment :=
  {| now := λ tr, default noon (readings !! count is_now tr);
     distributions := λ _, [requests; ghost; six];
     subprocess := λ _ args,
       if bool_decide (args = pip_index_versions "requests") then inl stdout_requests
       else if bool_decide (args = pip_index_versions "six") then inl stdout_six
       else if bool_decide (take 4 args = ["-m"; "pip"; "install"; "--upgrade"]) then inl ""
       else inr exit_status_1;
     show := λ tr _ _, default None (script !! count is_menu tr);
     schedule := λ _, sched;
     garbled := λ _, FileNotJson |}.

(** A world in which every command prints [out] and exits with status 0. *)
Definition registry_prints (out : string) : environment :=
  {| now := λ _, noon;
     distributions := λ _, [];
     subprocess := λ _ _, inl out;
     show := λ _ _ _, None;
     schedule := λ _, [];
     garbled := λ _, FileNotJson |}.

Definition stdout_two_labels : string :=
  "Available versions: 1.0, 0.9" +:+ newline
  +:+ "Available versions: 2.0, 1.9" +:+ newline.

(** The process at its start, with no cache file yet. *)
Definition boot : state := fresh_process FileMissing [].

(** The state once [foo_info] below was cached at noon. *)
Definition foo_cached : state :=
  after_set noon "foo"
    {| latest_version := "2.0"; all_versions := ["2.0"; "1.9"]; timestamp := None |}
    boot.

(** Thread 2 runs to its end, then thread 1, then thread 0. *)
Definition reverse_order : list nat :=
  replicate 16 2 ++ replicate 16 1 ++ replicate 16 0.

Definition foo : Distribution := {| Name := "foo"; version := "1.9" |}.

Definition foo_info : info :=
  {| latest_version := "2.0"; all_versions := ["2.0"; "1.9"]; timestamp := None |}.

End Sample.

(** Caches with an entry that was never stamped, in memory and on disk. *)
Module Scenario.

Definition unstamped_cache : gmap string info := {["requests" := Sample.foo_info]}.

Definition unstamped : state := with_cache unstamped_cache Sample.boot.

Definition unstamped_on_disk : state := fresh_process (FileJson unstamped_cache) [].

Definition not_json : state := fresh_process FileNotJson [].

(** A cache that holds, for [requests] and for [six], entries fetched at
    ten o'clock: expired at noon. *)
Definition warmed : state :=
  after_set (Sample.at_time 10 0) "six" Sample.foo_info
    (after_set (Sample.at_time 10 0) "requests" Sample.foo_info Sample.boot).

(** Thread 0 goes as far as the beginning of the walk of its dump, thread 1
    stores its entry, thread 0 takes the next step of its walk and closes
    the file. *)
Definition store_during_walk (other : nat) : list nat :=
  replicate 7 0 ++ replicate 4 other ++ [0; 0].

End Scenario.

(* ===================================================================== *)
(** * Facts about strings and datetimes *)
(* ===================================================================== *)

Arguments Datetime.fromisoformat : simpl never.
Arguments Datetime.isoformat : simpl never.
Arguments Datetime.sub : simpl never.
Arguments Datetime.valid : simpl never.
Arguments Str.split : simpl never.
Arguments Str.strip : simpl never.
Arguments CACHE_EXPIRY : simpl never.

Module StrFacts.
Import Str.

Lemma app_cons a s t : String a s +:+ t = String a (s +:+ t).
Proof. reflexivity. Qed.

Lemma app_nil_l s : "" +:+ s = s.
Proof. reflexivity. Qed.

Lemma app_nil_r s : s +:+ "" = s.
Proof. induction s as [|a s IH]; [done|]. by rewrite app_cons, IH. Qed.

Lemma app_assoc s t u : (s +:+ t) +:+ u = s +:+ (t +:+ u).
Proof. induction s as [|a s IH]; [done|]. by rewrite !app_cons, IH. Qed.

Lemma length_app s t :
  String.length (s +:+ t) = String.length s + String.length t.
Proof. induction s as [|a s IH]; [done|]. rewrite app_cons. simpl. lia. Qed.

Lemma startswith_spec p s : startswith p s = true ↔ ∃ r, s = p +:+ r.
Proof.
  revert s. induction p as [|a p IH]; intros s.
  - split; [intros _; by exists s|done].
  - destruct s as [|b s]; cbn.
    + split; [done|]. intros [r Hr]. by rewrite app_cons in Hr.
    + case_decide as Hab.
      * subst b. rewrite IH. split; intros [r Hr]; exists r.
        -- by rewrite app_cons, Hr.
        -- rewrite app_cons in Hr. by injection Hr.
      * split; [done|]. intros [r Hr]. rewrite app_cons in Hr. by injection Hr.
Qed.

Lemma occurs_empty sep : sep ≠ "" → ¬ occurs sep "".
Proof.
  intros Hne (pre & post & H). destruct pre; [|by rewrite app_cons in H].
  rewrite app_nil_l in H. destruct sep; [done|]. by rewrite app_cons in H.
Qed.

Lemma occurs_cons sep c s :
  sep ≠ "" →
  occurs sep (String c s) ↔ startswith sep (String c s) = true ∨ occurs sep s.
Proof.
  intros Hne. split.
  - intros ([|a pre] & post & H).
    + left. apply startswith_spec. by exists post.
    + right. rewrite app_cons in H. injection H as _ ->. by exists pre, post.
  - intros [H|(pre & post & ->)].
    + apply startswith_spec in H as [r Hr]. by exists "", r.
    + by exists (String c pre), post.
Qed.

Lemma split_go_nil sep k : split_go sep k "" = ("", []).
Proof. by destruct k. Qed.

Lemma split_go_skip sep x y :
  split_go sep (String.length x) (x +:+ y) = split_go sep 0 y.
Proof.
  induction x as [|a x IH]; [done|].
  rewrite app_cons. cbn [String.length split_go]. exact IH.
Qed.

Lemma join_cons sep c h t :
  join sep (String c h :: t) = String c (join sep (h :: t)).
Proof. by destruct t. Qed.

Lemma join_nil_cons sep h t : join sep ("" :: h :: t) = sep +:+ join sep (h :: t).
Proof. reflexivity. Qed.

(** [split] on a text that starts with the separator, and on one that does not. *)
Lemma split_go_match a sep' r :
  split_go (String a sep') 0 (String a sep' +:+ r)
  = ("", (split_go (String a sep') 0 r).1 :: (split_go (String a sep') 0 r).2).
Proof.
  assert (startswith (String a sep') (String a (sep' +:+ r)) = true) as Hst.
  { apply startswith_spec. exists r. by rewrite app_cons. }
  rewrite app_cons. cbn [split_go]. rewrite Hst. cbn [String.length].
  replace (S (String.length sep') - 1) with (String.length sep') by lia.
  rewrite split_go_skip. by destruct (split_go (String a sep') 0 r).
Qed.

Lemma split_go_no_match sep c s :
  startswith sep (String c s) = false →
  split_go sep 0 (String c s)
  = (String c (split_go sep 0 s).1, (split_go sep 0 s).2).
Proof. intros H. cbn [split_go]. rewrite H. by destruct (split_go sep 0 s). Qed.

Lemma split_go_spec sep n s :
  sep ≠ "" → String.length s ≤ n →
  join sep ((split_go sep 0 s).1 :: (split_go sep 0 s).2) = s
  ∧ ¬ occurs sep (split_go sep 0 s).1
  ∧ Forall (λ piece, ¬ occurs sep piece) (split_go sep 0 s).2.
Proof.
  intros Hne. revert s. induction n as [|n IH]; intros s Hn.
  { destruct s; [|cbn in Hn; lia]. cbn. split; [done|]. split; [|done].
    by apply occurs_empty. }
  destruct s as [|c s].
  { cbn. split; [done|]. split; [|done]. by apply occurs_empty. }
  destruct (startswith sep (String c s)) eqn:Hst.
  - apply startswith_spec in Hst as [r Hr]. rewrite Hr.
    destruct sep as [|a sep']; [done|].
    rewrite split_go_match. cbn [fst snd].
    destruct (IH r) as (Hj & Hh & Ht).
    { assert (String.length (String c s) = String.length (String a sep' +:+ r)) as Hl
        by (by rewrite Hr).
      rewrite length_app in Hl. cbn in *. lia. }
    split; [by rewrite join_nil_cons, Hj|]. split; [by apply occurs_empty|].
    by constructor.
  - rewrite (split_go_no_match _ _ _ Hst). cbn [fst snd].
    destruct (IH s) as (Hj & Hh & Ht); [cbn in Hn; lia|].
    split; [by rewrite join_cons, Hj|]. split; [|done].
    intros Hocc. apply occurs_cons in Hocc as [Hocc|Hocc]; [|done..].
    apply startswith_spec in Hocc as [r Hr].
    assert (startswith sep (String c s) = true) as Hst'; [|congruence].
    apply startswith_spec.
    rewrite <- Hj. destruct (split_go sep 0 s).2 as [|h2 t2].
    + cbn [join]. exists r. by rewrite <- Hr.
    + change (join sep ((split_go sep 0 s).1 :: h2 :: t2))
        with ((split_go sep 0 s).1 +:+ sep +:+ join sep (h2 :: t2)).
      exists (r +:+ sep +:+ join sep (h2 :: t2)).
      by rewrite <- app_cons, Hr, app_assoc.
Qed.

Lemma split_spec sep s :
  sep ≠ "" →
  join sep (split sep s) = s ∧ Forall (λ piece, ¬ occurs sep piece) (split sep s).
Proof.
  intros Hne. destruct (split_go_spec sep (String.length s) s Hne) as (Hj & Hh & Ht); [lia|].
  unfold split. destruct (split_go sep 0 s) as [h t]. cbn in *.
  split; [done|]. by constructor.
Qed.

Lemma join_last sep (l : list string) tail :
  last l = Some tail →
  l = [tail] ∨ ∃ pre, join sep l = pre +:+ sep +:+ tail.
Proof.
  induction l as [|x l IH]; [done|]. destruct l as [|y l].
  - intros [= ->]. by left.
  - intros Hl. right. change (last (x :: y :: l)) with (last (y :: l)) in Hl.
    change (join sep (x :: y :: l)) with (x +:+ sep +:+ join sep (y :: l)).
    destruct (IH Hl) as [[= -> ->]|[pre Hpre]].
    + by exists x.
    + exists (x +:+ sep +:+ pre). by rewrite Hpre, !app_assoc.
Qed.

Lemma split_last sep s tail :
  sep ≠ "" → last (split sep s) = Some tail →
  ¬ occurs sep tail
  ∧ ((∃ pre, s = pre +:+ sep +:+ tail) ∨ (s = tail ∧ ¬ occurs sep s)).
Proof.
  intros Hne Hl. destruct (split_spec sep s Hne) as [Hj Hall].
  assert (¬ occurs sep tail) as Htail.
  { rewrite Forall_forall in Hall. apply Hall. by apply last_Some_elem_of. }
  split; [done|].
  destruct (join_last sep _ _ Hl) as [Heq|[pre Hpre]].
  - right. rewrite Heq in Hj. cbn in Hj. by subst.
  - left. exists pre. by rewrite <- Hj.
Qed.

Lemma app_eq_app s1 s2 t1 t2 :
  s1 +:+ s2 = t1 +:+ t2 → String.length s1 ≤ String.length t1 →
  ∃ u, t1 = s1 +:+ u ∧ s2 = u +:+ t2.
Proof.
  revert t1. induction s1 as [|a s1 IH]; intros t1 H Hl.
  - by exists t1.
  - destruct t1 as [|b t1]; [cbn in Hl; lia|].
    rewrite !app_cons in H. injection H as -> H.
    destruct (IH t1 H) as (u & -> & ->); [cbn in Hl; lia|]. by exists u.
Qed.

Lemma drop_app_length x y : drop (String.length x) (x +:+ y) = y.
Proof. induction x as [|a x IH]; [by destruct y|]. by rewrite app_cons. Qed.

Lemma border_free_spec sep d :
  border_free sep = true → 0 < d < String.length sep →
  startswith (drop d sep) sep = false.
Proof.
  unfold border_free. rewrite forallb_forall. intros H Hd.
  apply negb_true_iff. apply H. apply in_seq. lia.
Qed.

Lemma last_occurrence_intro sep pre rest s :
  border_free sep = true → sep ≠ "" →
  s = pre +:+ sep +:+ rest → ¬ occurs sep rest →
  last_occurrence sep pre rest s.
Proof.
  intros Hbf Hne Hs Hrest. split; [done|].
  destruct sep as [|a l']; [done|]. rewrite app_cons. cbn [drop].
  intros (u & v & Huv).
  destruct (decide (String.length l' ≤ String.length u)) as [Hle|Hgt].
  - destruct (app_eq_app _ _ _ _ Huv Hle) as (u' & -> & ->).
    apply Hrest. by exists u', v.
  - symmetry in Huv.
    destruct (app_eq_app _ _ _ _ Huv) as (y & -> & Hy); [lia|].
    rewrite length_app in Hgt.
    destruct (app_eq_app y rest (String a (u +:+ y)) v) as (z & Hz & _).
    { done. }
    { cbn. rewrite length_app. lia. }
    assert (startswith (drop (S (String.length u)) (String a (u +:+ y)))
                       (String a (u +:+ y)) = false) as Hb.
    { apply border_free_spec; [done|]. cbn. rewrite length_app. lia. }
    cbn [drop] in Hb. rewrite drop_app_length in Hb.
    assert (startswith y (String a (u +:+ y)) = true) as Hb'; [|congruence].
    apply startswith_spec. by exists z.
Qed.

Lemma all_app p s t : all p (s +:+ t) = all p s && all p t.
Proof.
  induction s as [|a s IH]; [done|]. rewrite app_cons. cbn.
  by rewrite IH, andb_assoc.
Qed.

Lemma lstrip_spec s :
  ∃ l, s = l +:+ lstrip s ∧ all isspace l = true
       ∧ ∀ c t, lstrip s = String c t → isspace c = false.
Proof.
  induction s as [|a s (l & Hl & Hsp & Hfirst)].
  - by exists "".
  - cbn. destruct (isspace a) eqn:Ha.
    + exists (String a l). rewrite app_cons, <- Hl. cbn. by rewrite Ha, Hsp.
    + exists "". split; [done|]. split; [done|]. by intros c t [= <- _].
Qed.

Lemma rstrip_spec s :
  ∃ r, s = rstrip s +:+ r ∧ all isspace r = true
       ∧ (∀ t c, rstrip s = t +:+ String c "" → isspace c = false)
       ∧ (∀ c t, rstrip s = String c t → ∃ t', s = String c t').
Proof.
  induction s as [|a s (r & Hr & Hsp & Hlast & Hfirst)].
  - exists "". split; [done|]. split; [done|]. split; [|done].
    intros [|??] ?; by rewrite ?app_cons.
  - cbn. destruct (rstrip s) as [|b u] eqn:Hu.
    + rewrite app_nil_l in Hr. subst r. destruct (isspace a) eqn:Ha.
      * exists (String a s). split; [done|]. cbn. rewrite Ha, Hsp.
        split; [done|]. split; [|done]. intros [|??] ?; by rewrite ?app_cons.
      * exists s. split; [done|]. split; [done|]. split.
        -- intros [|??] c; rewrite ?app_cons, ?app_nil_l.
           ++ by intros [= <-].
           ++ intros [= _ H]. destruct s0; by rewrite ?app_cons in H.
        -- intros c t [= <- <-]. eauto.
    + exists r. rewrite app_cons, <- Hr. split; [done|]. split; [done|]. split.
      * intros [|a' t] c; rewrite ?app_cons, ?app_nil_l; [done|].
        intros [= -> H]. by eapply Hlast.
      * intros c t [= <- <-]. eauto.
Qed.

Lemma strip_spec s :
  ∃ l r, s = l +:+ strip s +:+ r
         ∧ all isspace l = true ∧ all isspace r = true ∧ stripped (strip s).
Proof.
  destruct (lstrip_spec s) as (l & Hl & Hlsp & Hfirst).
  destruct (rstrip_spec (lstrip s)) as (r & Hr & Hrsp & Hlast & Hkeep).
  exists l, r. unfold strip. split; [by rewrite <- Hr|]. split; [done|].
  split; [done|]. split; [|done].
  intros c t Hc. destruct (Hkeep c t Hc) as [t' Ht']. by eapply Hfirst.
Qed.

End StrFacts.

Module DatetimeFacts.
Import Datetime StrFacts.
Local Open Scope Z_scope.

Lemma digit_value_digit d : 0 ≤ d ≤ 9 → digit_value (digit d) = Some d.
Proof.
  intros H.
  assert (d = 0 ∨ d = 1 ∨ d = 2 ∨ d = 3 ∨ d = 4 ∨ d = 5 ∨ d = 6 ∨ d = 7
          ∨ d = 8 ∨ d = 9) as Hd by lia.
  repeat destruct Hd as [-> | Hd]; try subst d; reflexivity.
Qed.

Lemma read_digits_zfill w acc n rest :
  0 ≤ n < 10 ^ Z.of_nat w →
  read_digits w acc (zfill w n +:+ rest) = Some (acc * 10 ^ Z.of_nat w + n, rest).
Proof.
  revert acc n. induction w as [|w IH]; intros acc n Hn.
  - simpl in *. f_equal. f_equal. lia.
  - cbn [zfill read_digits]. rewrite app_cons.
    assert (0 < 10 ^ Z.of_nat w) as Hpos by (apply Z.pow_pos_nonneg; lia).
    assert (10 ^ Z.of_nat (S w) = 10 * 10 ^ Z.of_nat w) as Hpow.
    { rewrite Nat2Z.inj_succ, Z.pow_succ_r; lia. }
    rewrite Hpow in Hn.
    rewrite digit_value_digit.
    2:{ split; [apply Z.div_pos; lia|].
        assert (n / 10 ^ Z.of_nat w < 10); [|lia].
        apply Z.div_lt_upper_bound; lia. }
    rewrite IH by (apply Z.mod_pos_bound; lia).
    f_equal. f_equal. rewrite Hpow.
    pose proof (Z.div_mod n (10 ^ Z.of_nat w)). lia.
Qed.

Lemma valid_bounds d :
  valid d = true →
  1 ≤ year d ≤ 9999 ∧ 1 ≤ month d ≤ 12 ∧ 1 ≤ day d ≤ 31
  ∧ 0 ≤ hour d < 24 ∧ 0 ≤ minute d < 60 ∧ 0 ≤ second d < 60
  ∧ 0 ≤ microsecond d < 1000000.
Proof.
  unfold valid. rewrite !andb_true_iff.
  intros [[[[[[[[[[[[[? ?] ?] ?] ?] Hd] ?] ?] ?] ?] ?] ?] ?] ?].
  assert (days_in_month (year d) (month d) ≤ 31).
  { unfold days_in_month. repeat case_match; lia. }
  lia.
Qed.

Lemma expect_app c s : expect c (String c "" +:+ s) = Some s.
Proof. rewrite app_cons, app_nil_l. simpl. by rewrite decide_True. Qed.

Lemma fromisoformat_isoformat d :
  valid d = true → fromisoformat (isoformat d) = Some d.
Proof.
  intros Hv. pose proof (valid_bounds d Hv) as (Hy & Hmo & Hd & Hh & Hmi & Hs & Hus).
  destruct d as [y mo dd h mi se us].
  unfold fromisoformat, isoformat.
  cbn [year month day hour minute second microsecond] in *.
  repeat (rewrite read_digits_zfill by (simpl; lia); cbn [mbind option_bind];
          try (rewrite expect_app; cbn [mbind option_bind])).
  rewrite !Z.mul_0_l, !Z.add_0_l.
  destruct (us =? 0) eqn:Hz.
  - apply Z.eqb_eq in Hz as ->. cbn [mbind option_bind]. by rewrite Hv.
  - rewrite app_cons, app_nil_l. cbn [mbind option_bind expect].
    rewrite decide_True by done. cbn [mbind option_bind].
    rewrite <- (app_nil_r (zfill 6 us)).
    rewrite read_digits_zfill by (simpl; lia). cbn [mbind option_bind].
    rewrite Z.mul_0_l, Z.add_0_l. by rewrite Hv.
Qed.
End DatetimeFacts.

(* ===================================================================== *)
(** * The model at work on small inputs *)
(* ===================================================================== *)

Example split_versions :
  Str.split ", " "2.0, 1.9, 1.8" = ["2.0"; "1.9"; "1.8"].
Proof. reflexivity. Qed.

Example split_empty_text : Str.split ", " "" = [""].
Proof. reflexivity. Qed.

Example split_separator_at_the_end : Str.split "ab" "xab" = ["x"; ""].
Proof. reflexivity. Qed.

Example split_takes_leftmost_matches : Str.split "aa" "aaa" = [""; "a"].
Proof. reflexivity. Qed.

Example strip_both_ends :
  Str.strip (Sample.newline +:+ "  2.0, 1.9 " +:+ Sample.newline) = "2.0, 1.9".
Proof. reflexivity. Qed.

Example isoformat_whole_second :
  Datetime.isoformat Sample.noon = "2024-05-01T12:00:00".
Proof. reflexivity. Qed.

Example isoformat_microseconds :
  Datetime.isoformat
    {| Datetime.year := 987; Datetime.month := 12; Datetime.day := 31;
       Datetime.hour := 23; Datetime.minute := 59; Datetime.second := 59;
       Datetime.microsecond := 42 |}
  = "0987-12-31T23:59:59.000042".
Proof. reflexivity. Qed.

Example fromisoformat_rejects_february_30 :
  Datetime.fromisoformat "2024-02-30T12:00:00" = None.
Proof. reflexivity. Qed.

Example toordinal_2024_05_01 : Datetime.toordinal Sample.noon = 739007%Z.
Proof. reflexivity. Qed.

Example half_an_hour :
  Datetime.sub (Sample.at_time 12 30) Sample.noon = Datetime.timedelta_minutes 30.
Proof. reflexivity. Qed.

Example status_line_with_update :
  status_line 8 6 ("requests", "2.28.0", Some "2.31.0") = "requests 2.28.0 → 2.31.0".
Proof. reflexivity. Qed.

Example status_line_unknown_latest :
  status_line 8 6 ("ghost", "0.1", None) = "ghost       0.1".
Proof. reflexivity. Qed.

(* ===================================================================== *)
(** * Programs run alone: the cache and the registry client *)
(* ===================================================================== *)

Section Sequential.
Variable E : environment.

Lemma run_bind {A B} (m : prog A) (f : A → prog B) s :
  run (m ≫= f) s =
  match run m s with
  | (Ok a, s') => run (f a) s'
  | (Raise e, s') => (Raise e, s')
  | (OutOfFuel, s') => (OutOfFuel, s')
  end.
Proof.
  revert s. induction m as [[a|e|]|C act k IH]; intros s; try reflexivity.
  cbn. destruct (act s) as [b s']. apply IH.
Qed.

Lemma run_try_except {A} (m : prog A) (h : CalledProcessError → prog A) s :
  run (try_except m h) s =
  match run m s with
  | (Raise (ProcessError e), s') => run (h e) s'
  | r => r
  end.
Proof.
  revert s. induction m as [[a|[]|]|C act k IH]; intros s; try reflexivity.
  cbn. destruct (act s) as [b s']. apply IH.
Qed.

Lemma run_get_absent s name :
  cache s !! name = None → run (PackageCache_get E name) s = (Ok None, s).
Proof. intros H. unfold PackageCache_get. cbn. by rewrite H. Qed.

Lemma run_get_present s name e t0 :
  cache s !! name = Some e → cached_time e = Some t0 →
  run (PackageCache_get E name) s
  = (Ok (if (Datetime.sub (now E (trace s)) t0 <? CACHE_EXPIRY)%Z
         then Some e else None), log EvNow s).
Proof.
  intros H Ht. unfold cached_time in Ht.
  destruct (timestamp e) as [ts|] eqn:Hts; [|done]. cbn in Ht.
  unfold PackageCache_get. cbn. rewrite H. cbn. rewrite H. cbn.
  rewrite Hts. cbn. rewrite Ht. cbn.
  destruct (_ <? _)%Z; cbn; [by rewrite H|done].
Qed.

Lemma run_on_exit {A} (body : prog A) (close : option A → state → state) s :
  run (on_exit body close) s
  = match run body s with
    | (Ok a, s') => (Ok a, close (Some a) s')
    | (Raise e, s') => (Raise e, close None s')
    | (OutOfFuel, s') => (OutOfFuel, s')
    end.
Proof.
  revert s. induction body as [[a|e|]|C act k IH]; intros s; try reflexivity.
  cbn. destruct (act s) as [b s']. apply IH.
Qed.

(** With nobody else at work the walk finds the dict as it began on it. *)
Lemma run_walk steps began_on same s :
  cache s = began_on → run (walk steps began_on same) s = (Ok same, s).
Proof.
  intros <-. revert same. induction steps as [|k IH]; intros same; [done|].
  cbn [walk]. rewrite run_bind. cbn [run atomic ret].
  rewrite !bool_decide_true by done. rewrite andb_true_r. apply IH.
Qed.

Lemma run_json_dump s : run json_dump s = (Ok (Whole (cache s)), s).
Proof.
  unfold json_dump. rewrite run_bind. cbn [run atomic ret].
  case_bool_decide as Hc; [by rewrite Hc|].
  rewrite run_bind. cbn [run atomic ret]. rewrite run_bind, run_walk by done. done.
Qed.

Lemma run_save s :
  run (PackageCache_save E) s = (Ok tt, close_w E (Whole (cache s)) (open_w s)).
Proof.
  unfold PackageCache_save. rewrite run_bind. cbn [run atomic ret].
  by rewrite run_bind, run_on_exit, run_json_dump.
Qed.

(** [set] run alone, in any state. *)
Lemma run_set_any s name i :
  run (PackageCache_set E name i) s
  = (Ok (stamp (now E (trace s)) i),
     close_w E (Whole (<[name := stamp (now E (trace s)) i]> (cache s)))
       (open_w (with_cache (<[name := stamp (now E (trace s)) i]> (cache s))
                  (log EvNow s)))).
Proof.
  unfold PackageCache_set. rewrite run_bind. cbn [run atomic ret datetime_now].
  rewrite run_bind. cbn [run atomic ret]. by rewrite run_bind, run_save.
Qed.

Lemma run_set_cache s name i :
  cache (run (PackageCache_set E name i) s).2
  = <[name := stamp (now E (trace s)) i]> (cache s)
  ∧ trace (run (PackageCache_set E name i) s).2 = trace s ++ [EvNow].
Proof. by rewrite run_set_any. Qed.

Lemma run_set s name i :
  writers s = 0 →
  run (PackageCache_set E name i) s
  = (Ok (stamp (now E (trace s)) i), after_set (now E (trace s)) name i s).
Proof.
  intros Hw. rewrite run_set_any. f_equal. unfold close_w, open_w, after_set. cbn.
  by rewrite Hw.
Qed.

Lemma cached_time_stamp t i :
  Datetime.valid t = true → cached_time (stamp t i) = Some t.
Proof.
  intros Hv. unfold cached_time. cbn.
  by apply DatetimeFacts.fromisoformat_isoformat.
Qed.

Lemma run_get_pypi_info_ok s name out :
  subprocess E (trace s) (pip_index_versions name) = inl out →
  run (get_pypi_info E name) s
  = (let '(r, s') := run (parse_versions out) (log (EvSubprocess (pip_index_versions name)) s) in
     (match r with
      | Ok v => Ok (versions_info v)
      | Raise e => Raise e
      | OutOfFuel => OutOfFuel
      end, s')).
Proof.
  intros H. unfold get_pypi_info. rewrite run_try_except.
  unfold check_output. cbn. rewrite H. cbn.
  unfold parse_versions. cbn.
  destruct (last _); reflexivity.
Qed.

Lemma split_cons sep s : ∃ h t, Str.split sep s = h :: t.
Proof. unfold Str.split. destruct (Str.split_go sep 0 s) as [h t]. eauto. Qed.

Lemma parse_versions_ret out :
  ∃ tail, last (Str.split "Available versions: " out) = Some tail
          ∧ parse_versions out = ret (Str.split ", " (Str.strip tail)).
Proof.
  unfold parse_versions.
  destruct (split_cons "Available versions: " out) as (h & t & ->).
  destruct (last (h :: t)) as [x|] eqn:Hl.
  - exists x. done.
  - by apply last_None in Hl.
Qed.

Lemma run_get_pypi_info_some s name out :
  subprocess E (trace s) (pip_index_versions name) = inl out →
  ∃ i, run (get_pypi_info E name) s
       = (Ok (Some i), log (EvSubprocess (pip_index_versions name)) s)
       ∧ parse_versions out = ret (all_versions i)
       ∧ head (all_versions i) = Some (latest_version i)
       ∧ timestamp i = None.
Proof.
  intros H. rewrite (run_get_pypi_info_ok _ _ _ H).
  destruct (parse_versions_ret out) as (tail & _ & ->).
  destruct (split_cons ", " (Str.strip tail)) as (h & t & Hs). rewrite Hs.
  eexists. split; [reflexivity|]. done.
Qed.

Lemma registry_calls_app name tr tr' :
  registry_calls name (tr ++ tr') = registry_calls name tr + registry_calls name tr'.
Proof. unfold registry_calls. by rewrite filter_app, length_app. Qed.

Lemma fresh_expired_dec t e t0 :
  cached_time e = Some t0 →
  (if (Datetime.sub t t0 <? CACHE_EXPIRY)%Z then fresh t e else expired t e).
Proof.
  intros H. destruct (_ <? _)%Z eqn:Hlt.
  - exists t0. split; [done|]. by apply Z.ltb_lt.
  - exists t0. split; [done|]. by apply Z.ltb_ge.
Qed.

Lemma fresh_ltb t e t0 :
  cached_time e = Some t0 → fresh t e → (Datetime.sub t t0 <? CACHE_EXPIRY)%Z = true.
Proof. intros H (t1 & H1 & Hlt). apply Z.ltb_lt. congruence. Qed.

Lemma expired_ltb t e t0 :
  cached_time e = Some t0 → expired t e → (Datetime.sub t t0 <? CACHE_EXPIRY)%Z = false.
Proof. intros H (t1 & H1 & Hlt). apply Z.ltb_ge. congruence. Qed.

(** Claim C6. When [pip index versions] exits with a non-zero status for a
    package, [get_pypi_info] returns [None], the "no data" result, and raises
    nothing; the command was run once and only once: the one event the call
    adds to the trace is that run, so nothing was tried again. *)
Theorem get_pypi_info_exit_nonzero (s : state) (package_name : string) e :
  subprocess E (trace s) (pip_index_versions package_name) = inr e →
  run (get_pypi_info E package_name) s
  = (Ok None, log (EvSubprocess (pip_index_versions package_name)) s)
  ∧ registry_calls package_name
      (trace (run (get_pypi_info E package_name) s).2)
    = S (registry_calls package_name (trace s)).
Proof.
  intros H.
  assert (run (get_pypi_info E package_name) s
          = (Ok None, log (EvSubprocess (pip_index_versions package_name)) s)) as Hrun.
  { unfold get_pypi_info. rewrite run_try_except.
    unfold check_output. cbn. by rewrite H. }
  split; [exact Hrun|]. rewrite Hrun. cbn [snd log trace].
  rewrite registry_calls_app. cbn. rewrite decide_True by done. cbn. lia.
Qed.

(** Claim C2. In a cache whose entries carry a timestamp that reads as a
    datetime, [get(name)] raises nothing and returns the stored entry if and
    only if there is an entry for [name] and the clock, read by the call,
    minus the entry's timestamp is less than [CACHE_EXPIRY] (one hour); in
    every other case it returns [None]. The cache itself is left as it was.
    In particular, after a [set] that read [T0] off the clock, a [get] that
    reads a time 30 minutes later returns the entry as stamped, and one that
    reads a time 90 minutes later returns [None]. *)
Theorem PackageCache_get_iff_fresh (s : state) (package_name : string) :
  ((∀ e, cache s !! package_name = Some e → is_Some (cached_time e)) →
   ∃ r s', run (PackageCache_get E package_name) s = (Ok r, s')
           ∧ cache s' = cache s
           ∧ ∀ i, r = Some i ↔
                  cache s !! package_name = Some i ∧ fresh (now E (trace s)) i)
  ∧ (∀ i T0 T1,
       Datetime.valid T0 = true →
       now E (trace s) = T0 →
       now E (trace (run (PackageCache_set E package_name i) s).2) = T1 →
       (Datetime.sub T1 T0 = Datetime.timedelta_minutes 30 →
        (run (PackageCache_get E package_name)
             (run (PackageCache_set E package_name i) s).2).1
        = Ok (Some (stamp T0 i)))
       ∧ (Datetime.sub T1 T0 = Datetime.timedelta_minutes 90 →
          (run (PackageCache_get E package_name)
               (run (PackageCache_set E package_name i) s).2).1
          = Ok None)).
Proof.
  split.
  - intros Hwf. destruct (cache s !! package_name) as [e|] eqn:He.
    + destruct (Hwf e eq_refl) as [t0 Ht0].
      rewrite (run_get_present _ _ _ _ He Ht0).
      eexists _, _. split; [done|]. split; [done|].
      intros i. pose proof (fresh_expired_dec (now E (trace s)) e t0 Ht0) as Hd.
      destruct (_ <? _)%Z eqn:Hlt.
      * split; [intros [= <-]; done|]. by intros [[= ->] _].
      * split; [done|]. intros [[= <-] Hf].
        by rewrite (fresh_ltb _ _ _ Ht0 Hf) in Hlt.
    + rewrite (run_get_absent _ _ He). eexists _, _. split; [done|]. split; [done|].
      intros i. split; [done|]. by intros [? _].
  - intros i T0 T1 Hv HT0 HT1.
    destruct (run_set_cache s package_name i) as [Hc _]. rewrite HT0 in Hc.
    assert (cache (run (PackageCache_set E package_name i) s).2 !! package_name
            = Some (stamp T0 i)) as Hlk.
    { rewrite Hc. apply lookup_insert_eq. }
    rewrite (run_get_present _ _ _ _ Hlk (cached_time_stamp _ _ Hv)), HT1. cbn [fst].
    split; intros ->; reflexivity.
Qed.

Lemma run_init_json f m tr :
  f = FileJson m →
  run PackageCache_init (fresh_process f tr)
  = (Ok tt, with_cache m (fresh_process f tr)).
Proof. intros ->. reflexivity. Qed.

Lemma fresh_at_stamp t i :
  Datetime.valid t = true → fresh t (stamp t i).
Proof.
  intros Hv. exists t. split; [by apply cached_time_stamp|].
  unfold Datetime.sub. rewrite Z.sub_diag. reflexivity.
Qed.

(** Claim C3. Round trip through the cache file: after [set(name, info)],
    run while no other handle is open on the file, a new [PackageCache]
    loads a mapping equal to the one in memory; it holds an entry for
    [name] whose [latest_version] and [all_versions] are those of [info],
    the entry is within its time to live at the time [set] stamped it, and
    the new instance's [get] returns it as long as its own reading of the
    clock is within the time to live. With no cache file, the new instance
    loads the empty mapping and [get] returns [None] for every name. *)
Theorem set_then_load_round_trip (s : state) (package_name : string) (i : info) :
  (writers s = 0 →
   Datetime.valid (now E (trace s)) = true →
   ∃ s1 s2 e,
     (run (PackageCache_set E package_name i) s).2 = s1
     ∧ run PackageCache_init (fresh_process (cache_file s1) (trace s1)) = (Ok tt, s2)
     ∧ cache s2 = cache s1
     ∧ cache s2 !! package_name = Some e
     ∧ latest_version e = latest_version i
     ∧ all_versions e = all_versions i
     ∧ fresh (now E (trace s)) e
     ∧ (fresh (now E (trace s2)) e →
        (run (PackageCache_get E package_name) s2).1 = Ok (Some e)))
  ∧ (∀ tr name,
       ∃ s2, run PackageCache_init (fresh_process FileMissing tr) = (Ok tt, s2)
             ∧ cache s2 = ∅
             ∧ run (PackageCache_get E name) s2 = (Ok None, s2)).
Proof.
  split.
  - intros Hw Hv. rewrite run_set by done. cbn [snd].
    set (t := now E (trace s)) in *.
    eexists _, _, (stamp t i). split; [reflexivity|].
    assert (cache_file (after_set t package_name i s)
            = FileJson (<[package_name := stamp t i]> (cache s))) as Hf.
    { reflexivity. }
    split; [by apply run_init_json|].
    split; [reflexivity|].
    assert (<[package_name := stamp t i]> (cache s) !! package_name
            = Some (stamp t i)) as Hlk by apply lookup_insert_eq.
    split; [exact Hlk|]. split; [done|]. split; [done|].
    split; [by apply fresh_at_stamp|].
    intros Hfr.
    erewrite run_get_present; [|exact Hlk|by apply cached_time_stamp].
    cbn [fst]. erewrite fresh_ltb; [done|by apply cached_time_stamp|done].
  - intros tr name. eexists. split; [reflexivity|]. split; [reflexivity|].
    by apply run_get_absent.
Qed.

(** Claim C1. One call of [get_package_info], for a package named [name]:
    - if the cache holds an entry for [name] that is not expired at the
      call's reading of the clock, the call returns that entry's latest
      version, leaves the cache as it is and does not query the registry
      for [name];
    - if the cache holds no entry for [name], or one that is expired, and
      the query of the registry succeeds, then after the call the cache
      holds an entry for [name] stamped with the time [t] the call read off
      the clock when it stored the entry, that entry is within its time to
      live at [t], the registry was queried once, and, no other handle
      being open on the cache file, the file holds the mapping that is in
      memory. *)
Theorem get_package_info_cache (s : state) (package : Distribution) :
  (∀ e, cache s !! (Name package) = Some e → fresh (now E (trace s)) e →
     ∃ s', run (get_package_info E package) s
           = (Ok ((Name package), version package, Some (latest_version e)), s')
           ∧ registry_calls (Name package) (trace s') = registry_calls (Name package) (trace s)
           ∧ cache s' = cache s)
  ∧ (∀ tr out,
       (cache s !! (Name package) = None ∧ tr = trace s)
       ∨ (∃ e, cache s !! (Name package) = Some e ∧ expired (now E (trace s)) e
               ∧ tr = trace s ++ [EvNow]) →
       subprocess E tr (pip_index_versions (Name package)) = inl out →
       let t := now E (tr ++ [EvSubprocess (pip_index_versions (Name package))]) in
       Datetime.valid t = true →
       ∃ s' e', run (get_package_info E package) s
                = (Ok ((Name package), version package, Some (latest_version e')), s')
                ∧ cache s' !! (Name package) = Some e'
                ∧ cached_time e' = Some t
                ∧ fresh t e'
                ∧ registry_calls (Name package) (trace s')
                  = S (registry_calls (Name package) (trace s))
                ∧ (writers s = 0 → cache_file s' = FileJson (cache s'))).
Proof.
  split.
  - intros e He Hfr. destruct (Hfr) as (t0 & Ht0 & _).
    unfold get_package_info. cbv zeta. rewrite run_bind.
    rewrite (run_get_present _ _ _ _ He Ht0), (fresh_ltb _ _ _ Ht0 Hfr).
    eexists. split; [reflexivity|]. split; [|reflexivity].
    cbn. unfold registry_calls. rewrite filter_app. cbn.
    rewrite decide_False by done. rewrite length_app. cbn. lia.
  - intros tr out Hcase Hout t Hv.
    assert (∃ s0, run (PackageCache_get E (Name package)) s = (Ok None, s0)
                  ∧ trace s0 = tr ∧ cache s0 = cache s
                  ∧ registry_calls (Name package) tr = registry_calls (Name package) (trace s))
      as (s0 & Hget & Htr & Hc & Hrc).
    { destruct Hcase as [[Hn ->]|(e & He & Hex & ->)].
      - exists s. by rewrite (run_get_absent _ _ Hn).
      - destruct (Hex) as (t0 & Ht0 & _).
        exists (log EvNow s).
        rewrite (run_get_present _ _ _ _ He Ht0), (expired_ltb _ _ _ Ht0 Hex).
        split; [done|]. split; [done|]. split; [done|].
        rewrite registry_calls_app. cbn. rewrite decide_False by done. cbn. lia. }
    rewrite <- Htr in Hout.
    destruct (run_get_pypi_info_some _ _ _ Hout) as (i & Hpypi & _ & _ & _).
    unfold get_package_info. cbv zeta. rewrite run_bind, Hget, run_bind, run_bind, Hpypi.
    rewrite run_bind, run_set_any. cbn [run ret].
    eexists _, (stamp _ i). split; [reflexivity|].
    cbn [trace log]. rewrite Htr. fold t.
    split; [cbn; apply lookup_insert_eq|].
    split; [by apply cached_time_stamp|].
    split; [by apply fresh_at_stamp|].
    split.
    + cbn [trace log close_w open_w with_cache].
      rewrite Htr, !registry_calls_app, Hrc. cbn.
      rewrite decide_True by done. rewrite decide_False by done. cbn. lia.
    + intros Hw. cbn. assert (writers s0 = 0) as ->; [|done].
      destruct Hcase as [[Hn ->]|(e & He & Hex & ->)].
      * rewrite (run_get_absent _ _ Hn) in Hget. by injection Hget as <-.
      * destruct (Hex) as (t0 & Ht0 & _).
        rewrite (run_get_present _ _ _ _ He Ht0) in Hget. by injection Hget as _ <-.
Qed.
End Sequential.

(* ===================================================================== *)
(** * Threads under interference: the aggregator *)
(* ===================================================================== *)

Section Logic.
Context {A : Type} (G : state → state → Prop).

Lemma safe_pre (P P' : state → Prop) (p : prog A) Q :
  (∀ s, P s → P' s) → safe G P' p Q → safe G P p Q.
Proof. destruct p; cbn; eauto. Qed.

Lemma safe_pure_pre (P : state → Prop) (φ : Prop) (p : prog A) Q :
  (φ → safe G P p Q) → safe G (λ s, P s ∧ φ) p Q.
Proof. destruct p; cbn; intros H s [Hs Hφ]; by apply H. Qed.

Lemma safe_post (P : state → Prop) (p : prog A) (Q Q' : result A → state → Prop) :
  (∀ r s, Q r s → Q' r s) → safe G P p Q → safe G P p Q'.
Proof.
  intros HQ. revert P. induction p as [r|B act k IH]; cbn; intros P H s Hs.
  - eauto.
  - destruct (H s Hs) as (HG & P' & Hst & HP' & Hk). eauto 10.
Qed.

Lemma safe_ret (P : state → Prop) (a : A) (Q : result A → state → Prop) :
  (∀ s, P s → Q (Ok a) s) → safe G P (ret a) Q.
Proof. done. Qed.

End Logic.

Section Logic2.
Context (G : state → state → Prop).


Lemma safe_bind {A B} (P : state → Prop) (m : prog A) (f : A → prog B) Q1 Q2 :
  safe G P m Q1 →
  (∀ a, safe G (Q1 (Ok a)) (f a) Q2) →
  (∀ e s, Q1 (Raise e) s → Q2 (Raise e) s) →
  (∀ s, Q1 OutOfFuel s → Q2 OutOfFuel s) →
  safe G P (m ≫= f) Q2.
Proof.
  intros Hm Hf He Ho. revert P Hm.
  induction m as [[a|e|]|C act k IH]; intros P Hm.
  - eapply safe_pre; [|apply Hf]. exact Hm.
  - cbn in *. eauto.
  - cbn in *. eauto.
  - intros s Hs. destruct (Hm s Hs) as (HG & P' & Hst & HP' & Hk).
    split; [done|]. exists P'. split; [done|]. split; [done|]. by apply IH.
Qed.

Lemma safe_try_except {A} (P : state → Prop) (m : prog A) h Q1 Q2 :
  safe G P m Q1 →
  (∀ e, safe G (Q1 (Raise (ProcessError e))) (h e) Q2) →
  (∀ r s, (∀ e, r ≠ Raise (ProcessError e)) → Q1 r s → Q2 r s) →
  safe G P (try_except m h) Q2.
Proof.
  intros Hm Hh Hr. revert P Hm.
  induction m as [r|C act k IH]; intros P Hm.
  - destruct r as [a|[]|]; try (cbn in *; intros s Hs; apply Hr; [done|eauto]).
    cbn. eapply safe_pre; [|apply Hh]. exact Hm.
  - intros s Hs. destruct (Hm s Hs) as (HG & P' & Hst & HP' & Hk).
    split; [done|]. exists P'. split; [done|]. split; [done|]. by apply IH.
Qed.

(** Running a safe thread alone. *)
Lemma run_safe {A} (P : state → Prop) (p : prog A) Q s (X : state → Prop) :
  safe G P p Q → P s → stable G X → X s →
  Q (run p s).1 (run p s).2 ∧ X (run p s).2.
Proof.
  revert P s. induction p as [r|B act k IH]; cbn; intros P s Hp Hs HX Xs.
  - eauto.
  - destruct (Hp s Hs) as (HG & P' & Hst & HP' & Hk).
    destruct (act s) as [b s'] eqn:Hact. cbn in *.
    eapply IH; eauto.
Qed.

End Logic2.



Section Pool.
Context {A : Type} (G : state → state → Prop).

Lemma pool_ok_stable (Qs : list (result A → state → Prop)) ps :
  stable G (pool_ok G Qs ps).
Proof.
  intros s s' H HG. eapply Forall2_impl; [exact H|].
  intros Q p (P & Hst & HP & Hs). exists P. eauto.
Qed.

Lemma pool_step_ok i (Qs : list (result A → state → Prop)) ps s (X : state → Prop) :
  pool_ok G Qs ps s → stable G X → X s →
  pool_ok G Qs (pool_step i ps s).1 (pool_step i ps s).2 ∧ X (pool_step i ps s).2.
Proof.
  intros Hok HX Xs. unfold pool_step.
  destruct (ps !! i) as [[r|B act k]|] eqn:Hi; [done| |done].
  destruct (Forall2_lookup_r _ _ _ _ _ Hok Hi) as (Q & HQ & P & Hst & HP & Hsafe).
  destruct (Hsafe s HP) as (HG & P' & Hst' & HP' & Hk).
  destruct (act s) as [b s'] eqn:Hact. cbn in *.
  split; [|eauto].
  rewrite <- (list_insert_id Qs i Q HQ).
  apply Forall2_insert; [|eauto].
  by eapply pool_ok_stable.
Qed.

Lemma pool_run_ok sched (Qs : list (result A → state → Prop)) ps s :
  pool_ok G Qs ps s →
  pool_ok G Qs (pool_run sched ps s).1 (pool_run sched ps s).2.
Proof.
  revert ps s. induction sched as [|i sched IH]; intros ps s Hok; [done|].
  cbn. destruct (pool_step_ok i Qs ps s (λ _, True) Hok) as [H _]; [done..|].
  destruct (pool_step i ps s) as [ps' s']. by apply IH.
Qed.

Lemma pool_join_ok (Qs : list (result A → state → Prop)) ps s :
  pool_ok G Qs ps s →
  Forall2 (λ Q r, ∃ s', Q r s') Qs (pool_join ps s).1.
Proof.
  revert Qs s. induction ps as [|p ps IH]; intros Qs s Hok.
  - apply Forall2_nil_inv_r in Hok as ->. constructor.
  - apply Forall2_cons_inv_r in Hok as (Q & Qs' & (P & Hst & HP & Hsafe) & Hok & ->).
    cbn.
    destruct (run_safe G P p Q s (pool_ok G Qs' ps) Hsafe HP (pool_ok_stable _ _) Hok)
      as [HQ Hok'].
    destruct (run p s) as [r s1]. cbn in *.
    specialize (IH _ _ Hok'). destruct (pool_join ps s1) as [rs s2]. cbn in *.
    constructor; eauto.
Qed.

Lemma pool_exec_ok sched (Qs : list (result A → state → Prop)) ps s :
  pool_ok G Qs ps s →
  Forall2 (λ Q r, ∃ s', Q r s') Qs (pool_exec sched ps s).1.
Proof.
  intros Hok. unfold pool_exec.
  pose proof (pool_run_ok sched Qs ps s Hok) as H.
  destruct (pool_run sched ps s) as [ps' s']. by apply pool_join_ok.
Qed.

End Pool.

Section Steps.
Context (G : state → state → Prop).

Lemma safe_atomic {B} (act : state → B * state) (P : state → Prop)
    (Q : result B → state → Prop) :
  (∀ b, stable G (Q (Ok b))) →
  (∀ s, P s → G s (act s).2 ∧ Q (Ok (act s).1) (act s).2) →
  safe G P (atomic act) Q.
Proof.
  intros HQ H s Hs. destruct (H s Hs) as [HG HQs]. split; [done|].
  exists (Q (Ok (act s).1)). split; [apply HQ|]. split; [done|]. by intros s'.
Qed.

Lemma safe_on_exit {A} (P : state → Prop) (body : prog A)
    (close : option A → state → state) (Q : result A → state → Prop) :
  safe G P body Q →
  (∀ r, stable G (Q r)) →
  (∀ a s, Q (Ok a) s → G s (close (Some a) s) ∧ Q (Ok a) (close (Some a) s)) →
  (∀ e s, Q (Raise e) s → G s (close None s) ∧ Q (Raise e) (close None s)) →
  safe G P (on_exit body close) Q.
Proof.
  intros Hb HQ Hok Hraise. revert P Hb.
  induction body as [[a|e|]|C act k IH]; intros P Hb.
  - intros s Hs. destruct (Hok a s (Hb s Hs)) as [HG HQs]. split; [done|].
    exists (Q (Ok a)). split; [apply HQ|]. split; [done|]. by intros s'.
  - intros s Hs. destruct (Hraise e s (Hb s Hs)) as [HG HQs]. split; [done|].
    exists (Q (Raise e)). split; [apply HQ|]. split; [done|]. by intros s'.
  - exact Hb.
  - intros s Hs. destruct (Hb s Hs) as (HG & P' & Hst & HP' & Hk).
    split; [done|]. exists P'. split; [done|]. split; [done|]. by apply IH.
Qed.

Lemma within_bind {A B} (Q1 : result A → Prop) (Q2 : result B → Prop)
    (m : prog A) (f : A → prog B) :
  within G Q1 m →
  (∀ a, Q1 (Ok a) → within G Q2 (f a)) →
  (∀ e, Q1 (Raise e) → Q2 (Raise e)) →
  (Q1 OutOfFuel → Q2 OutOfFuel) →
  within G Q2 (m ≫= f).
Proof.
  intros Hm Hf He Ho. induction m as [[a|e|]|C act k IH]; cbn in *; eauto.
  destruct Hm as [HG Hk]. split; [done|]. intros b. by apply IH.
Qed.

Lemma within_try_except {A} (Q1 Q2 : result A → Prop) (m : prog A) h :
  within G Q1 m →
  (∀ e, Q1 (Raise (ProcessError e)) → within G Q2 (h e)) →
  (∀ r, (∀ e, r ≠ Raise (ProcessError e)) → Q1 r → Q2 r) →
  within G Q2 (try_except m h).
Proof.
  intros Hm Hh Hr. induction m as [r|C act k IH].
  - destruct r as [a|[]|]; cbn in *; try (apply Hr; [done|done]). by apply Hh.
  - destruct Hm as [HG Hk]. split; [done|]. intros b. by apply IH.
Qed.

Lemma within_on_exit {A} (Q : result A → Prop) (body : prog A)
    (close : option A → state → state) :
  within G Q body →
  (∀ o s, G s (close o s)) →
  within G Q (on_exit body close).
Proof.
  intros Hb Hc. induction body as [[a|e|]|C act k IH]; cbn in *; eauto.
  destruct Hb as [HG Hk]. split; [done|]. intros b. by apply IH.
Qed.

Lemma within_safe {A} (Q : result A → Prop) (p : prog A) :
  within G Q p → safe G (λ _, True) p (λ r _, Q r).
Proof.
  induction p as [r|B act k IH]; cbn; [done|].
  intros [HG Hk] s _. split; [done|]. exists (λ _, True).
  split; [done|]. split; [done|]. by apply IH.
Qed.

End Steps.

Section PoolKeeps.
Context {A : Type} (G : state → state → Prop).

Lemma pool_run_keeps sched (Qs : list (result A → state → Prop)) ps s (X : state → Prop) :
  pool_ok G Qs ps s → stable G X → X s →
  pool_ok G Qs (pool_run sched ps s).1 (pool_run sched ps s).2
  ∧ X (pool_run sched ps s).2.
Proof.
  intros Hok HX. revert ps s Hok.
  induction sched as [|i sched IH]; intros ps s Hok Xs; [done|].
  cbn. destruct (pool_step_ok G i Qs ps s X Hok HX Xs) as [H1 H2].
  destruct (pool_step i ps s) as [ps' s']. by apply IH.
Qed.

Lemma pool_join_keeps (Qs : list (result A → state → Prop)) ps s (X : state → Prop) :
  pool_ok G Qs ps s → stable G X → X s → X (pool_join ps s).2.
Proof.
  intros Hok HX. revert Qs s Hok. induction ps as [|p ps IH]; intros Qs s Hok Xs.
  - done.
  - apply Forall2_cons_inv_r in Hok as (Q & Qs' & (P & Hst & HP & Hsafe) & Hok & ->).
    cbn.
    destruct (run_safe G P p Q s (λ s, pool_ok G Qs' ps s ∧ X s) Hsafe HP)
      as [_ [Hok' Xs']].
    { intros s1 s2 [H1 H2] HG. split; [by eapply pool_ok_stable|by eapply HX]. }
    { done. }
    destruct (run p s) as [r s1]. cbn in *.
    specialize (IH _ _ Hok' Xs'). by destruct (pool_join ps s1) as [rs s2].
Qed.

Lemma pool_exec_keeps sched (Qs : list (result A → state → Prop)) ps s (X : state → Prop) :
  pool_ok G Qs ps s → stable G X → X s → X (pool_exec sched ps s).2.
Proof.
  intros Hok HX Xs. unfold pool_exec.
  destruct (pool_run_keeps sched Qs ps s X Hok HX Xs) as [H1 H2].
  destruct (pool_run sched ps s) as [ps' s']. by eapply pool_join_keeps.
Qed.

End PoolKeeps.

Section Worker.
Variable E : environment.
Variable warm : Prop.
Variable began : gmap string info.
Hypothesis Hclock : ∀ tr, Datetime.valid (now E tr) = true.

Lemma guar_cache_eq s s' : cache s' = cache s → guar E warm s s'.
Proof. intros H. unfold guar. rewrite H. done. Qed.

Lemma stable_inv : stable (guar E warm) (inv E began).
Proof.
  intros s s' [Hwf Hn] (G1 & G2 & G3 & G4). split; [eauto|].
  intros n Hf. rewrite G3 by done. eauto.
Qed.

Lemma stable_worker_pre n : stable (guar E warm) (worker_pre E warm began n).
Proof.
  intros s s' [Hi Hw] HG. split; [by eapply stable_inv|].
  intros W. destruct (Hw W) as [Hp|Hf]; [left|by right].
  destruct HG as (_ & G2 & _). eauto.
Qed.

Lemma stable_present n :
  stable (guar E warm) (λ s, worker_pre E warm began n s ∧ is_Some (cache s !! n)).
Proof.
  intros s s' [Hi Hp] HG. split; [by eapply stable_worker_pre|].
  destruct HG as (_ & G2 & _). eauto.
Qed.

Lemma stable_dump_post {A} (r : result A) : stable (guar E warm) (dump_post E warm began r).
Proof. intros s s' [Hi Hr] HG. split; [by eapply stable_inv|done]. Qed.

Lemma guar_insert s n t i :
  Datetime.valid t = true → ¬ always_fails E n → (warm → is_Some (cache s !! n)) →
  guar E warm s (with_cache (<[n := stamp t i]> (cache s)) s).
Proof.
  intros Hv Hn Hw. split; [|split; [|split]].
  - intros Hwf m e. cbn. rewrite lookup_insert. case_decide.
    + intros [= <-]. by rewrite cached_time_stamp.
    + apply Hwf.
  - intros m. cbn. rewrite lookup_insert. case_decide; eauto.
  - intros m Hm. cbn. rewrite lookup_insert_ne; [done|]. by intros ->.
  - intros W. cbn. apply map_size_insert_Some. by apply Hw.
Qed.

Lemma PackageCache_get_safe n :
  safe (guar E warm) (worker_pre E warm began n) (PackageCache_get E n)
       (get_post E warm began n).
Proof.
  unfold PackageCache_get. cbn.
  intros s Hs. split; [by apply guar_cache_eq|].
  case_bool_decide as Hp.
  - exists (λ s, worker_pre E warm began n s ∧ is_Some (cache s !! n)).
    split; [apply stable_present|]. split; [done|].
    cbn. intros s1 [Hs1 [e He]]. split; [by apply guar_cache_eq|].
    assert (always_fails E n → began !! n = Some e) as Hbegan.
    { intros Hf. destruct Hs1 as [[_ Hs1] _]. by rewrite <- (Hs1 n Hf). }
    exists (λ s, worker_pre E warm began n s ∧ is_Some (cache s !! n)).
    split; [apply stable_present|]. split; [by split; eauto|]. rewrite He. cbn.
    destruct Hs1 as [[Hwf1 _] _]. destruct (Hwf1 _ _ He) as [t0 Ht0].
    pose proof Ht0 as Ht0'.
    unfold cached_time in Ht0. destruct (timestamp e) as [ts|]; [|done].
    cbn in Ht0. cbn. rewrite Ht0. cbn.
    intros s2 Hs2. split; [by apply guar_cache_eq|].
    exists (λ s, worker_pre E warm began n s ∧ is_Some (cache s !! n)).
    split; [apply stable_present|]. split; [done|].
    destruct (_ <? _)%Z eqn:Hlt; cbn.
    + intros s3 [Hs3 [e3 He3]]. split; [by apply guar_cache_eq|].
      exists (worker_pre E warm began n). split; [apply stable_worker_pre|].
      split; [done|].
      rewrite He3. cbn. intros s4 Hs4. split; [done|]. eexists. split; [done|].
      intros Hf [Hnone|(entry & Hentry & Hexp)].
      * rewrite (Hbegan Hf) in Hnone. done.
      * rewrite (Hbegan Hf) in Hentry. injection Hentry as <-.
        by rewrite (expired_ltb _ _ _ Ht0' (Hexp _)) in Hlt.
    + intros s3 [Hs3 _]. split; [done|]. by exists None.
  - exists (worker_pre E warm began n). split; [apply stable_worker_pre|]. split; [done|].
    cbn. intros s1 Hs1. split; [done|]. by exists None.
Qed.

Lemma get_pypi_info_safe n :
  safe (guar E warm) (worker_pre E warm began n) (get_pypi_info E n)
       (lookup_post E warm began n).
Proof.
  unfold get_pypi_info, check_output. cbn.
  intros s Hs. split; [by apply guar_cache_eq|].
  exists (worker_pre E warm began n). split; [apply stable_worker_pre|]. split; [done|].
  destruct (subprocess E (trace s) (pip_index_versions n)) as [out|e] eqn:Hsub; cbn.
  - destruct (parse_versions_ret out) as (tail & _ & ->). cbn.
    intros s1 Hs1. split; [done|].
    destruct (split_cons ", " (Str.strip tail)) as (h & t & ->). cbn.
    eexists. split; [done|]. split; [|done].
    intros _ Hf. destruct (Hf (trace s)) as [e He]. congruence.
  - intros s1 Hs1. split; [done|]. exists None. split; [done|].
    split; [by intros []|]. intros Hsucc. destruct (Hsucc (trace s)). congruence.
Qed.

(** The walk of a dump, under interference: in a warm batch the dict keeps
    the size the walk began on, and the walk ends; otherwise it may end in
    [RuntimeError]. *)
Lemma walk_safe steps walk_on same :
  safe (guar E warm)
       (λ s, inv E began s ∧ (warm → size (cache s) = size walk_on))
       (walk steps walk_on same) (dump_post E warm began).
Proof.
  revert same. induction steps as [|k IH]; intros same.
  - intros s [Hs _]. split; [done|]. left. by eexists.
  - cbn. intros s [Hs Hsize]. split; [by apply guar_cache_eq|].
    case_bool_decide as Hsz.
    + exists (λ s, inv E began s ∧ (warm → size (cache s) = size walk_on)).
      split; [|split; [done|apply IH]].
      intros s1 s2 [H1 H2] HG. split; [by eapply stable_inv|].
      intros W. destruct HG as (_ & _ & _ & G4). rewrite G4 by done. by apply H2.
    + exists (inv E began). split; [apply stable_inv|]. split; [done|].
      intros s1 Hs1. split; [done|]. right. split; [done|].
      intros W. by apply Hsz, Hsize.
Qed.

Lemma json_dump_safe :
  safe (guar E warm) (inv E began) json_dump (dump_post E warm began).
Proof.
  unfold json_dump.
  eapply (safe_bind _ _ _ _ (λ r s, inv E began s ∧ ∃ b, r = Ok b)).
  - apply safe_atomic.
    + intros b s s' [Hs Hb] HG. split; [by eapply stable_inv|done].
    + intros s Hs. split; [by apply guar_cache_eq|]. split; [done|]. by eexists.
  - intros [|].
    + intros s [Hs _]. split; [done|]. left. by eexists.
    + eapply (safe_bind _ _ _ _
                (λ r s, inv E began s
                        ∧ ∃ c, r = Ok c ∧ (warm → size (cache s) = size c))).
      * apply safe_atomic.
        -- intros b s s' [Hs (c & [= <-] & Hc)] HG. split; [by eapply stable_inv|].
           exists b. split; [done|]. intros W.
           destruct HG as (_ & _ & _ & G4). rewrite G4 by done. by apply Hc.
        -- intros s [Hs _]. split; [by apply guar_cache_eq|]. split; [done|].
           by eexists.
      * intros walk_on.
        eapply safe_bind.
        -- eapply safe_pre; [|apply walk_safe].
           intros s [Hs (c & [= <-] & Hc)]. by split.
        -- intros same s [Hs _]. split; [done|]. left. by eexists.
        -- intros e s [Hs [(b & Hb & _)|[[= ->] Hw]]]; [done|].
           split; [done|]. by right.
        -- intros s [Hs [(b & Hb & _)|[Hr _]]]; done.
      * by intros e s [_ (c & Hc & _)].
      * by intros s [_ (c & Hc & _)].
  - by intros e s [_ (b & Hb)].
  - by intros s [_ (b & Hb)].
Qed.

Lemma close_w_dump_post {A B} (r : result A) (r' : result B) d s :
  dump_post E warm began r s →
  (or_dict_changed warm (λ _, True) r → or_dict_changed warm (λ _, True) r') →
  guar E warm s (close_w E d s) ∧ dump_post E warm began r' (close_w E d s).
Proof. intros [Hs Hr] Hrr'. split; [by apply guar_cache_eq|]. split; [done|eauto]. Qed.

Lemma PackageCache_save_safe :
  safe (guar E warm) (inv E began) (PackageCache_save E) (dump_post E warm began).
Proof.
  unfold PackageCache_save.
  eapply (safe_bind _ _ _ _ (λ r s, inv E began s ∧ ∃ b, r = Ok b)).
  - apply safe_atomic.
    + intros b s s' [Hs Hb] HG. split; [by eapply stable_inv|done].
    + intros s Hs. split; [by apply guar_cache_eq|]. split; [done|]. by eexists.
  - intros [].
    eapply (safe_bind _ _ _ _ (dump_post E warm began)).
    + apply safe_on_exit.
      * eapply safe_pre; [|apply json_dump_safe]. by intros s [Hs _].
      * intros r. apply stable_dump_post.
      * intros d s H. by eapply close_w_dump_post.
      * intros e s H. by eapply close_w_dump_post.
    + intros d s [Hs _]. split; [done|]. left. by eexists.
    + intros e s [Hs [(b & Hb & _)|[[= ->] Hw]]]; [done|]. split; [done|]. by right.
    + intros s [Hs [(b & Hb & _)|[Hr _]]]; done.
  - by intros e s [_ (b & Hb)].
  - by intros s [_ (b & Hb)].
Qed.

Lemma PackageCache_set_safe n i :
  ¬ always_fails E n →
  safe (guar E warm) (worker_pre E warm began n) (PackageCache_set E n i)
       (dump_post E warm began).
Proof using Hclock.
  intros Hn. unfold PackageCache_set.
  eapply (safe_bind _ _ _ _
            (λ r s, worker_pre E warm began n s
                    ∧ ∃ t, r = Ok t ∧ Datetime.valid t = true)).
  - apply safe_atomic.
    + intros b s s' [Hs Hb] HG. split; [by eapply stable_worker_pre|done].
    + intros s Hs. split; [by apply guar_cache_eq|]. split; [done|].
      eexists. split; [done|]. apply Hclock.
  - intros t. cbv zeta.
    eapply (safe_bind _ _ _ _ (λ r s, inv E began s ∧ ∃ b, r = Ok b)).
    + apply safe_atomic.
      * intros b s s' [Hs Hb] HG. split; [by eapply stable_inv|done].
      * intros s [[Hs Hw] (t' & [= <-] & Hv)].
        assert (guar E warm s (with_cache (<[n := stamp t i]> (cache s)) s)) as HG.
        { apply guar_insert; [done|done|]. intros W. by destruct (Hw W). }
        split; [exact HG|]. split; [by eapply stable_inv|]. by eexists.
    + intros [].
      eapply (safe_bind _ _ _ _ (dump_post E warm began)).
      * eapply safe_pre; [|apply PackageCache_save_safe]. by intros s [Hs _].
      * intros [] s [Hs _]. split; [done|]. left. by eexists.
      * intros e s [Hs [(b & Hb & _)|[[= ->] Hw]]]; [done|]. split; [done|]. by right.
      * intros s [Hs [(b & Hb & _)|[Hr _]]]; done.
    + by intros e s [_ (b & Hb)].
    + by intros s [_ (b & Hb)].
  - by intros e s [_ (b & Hb & _)].
  - by intros s [_ (b & Hb & _)].
Qed.

Lemma get_package_info_safe p :
  safe (guar E warm) (worker_pre E warm began (Name p)) (get_package_info E p)
       (worker_post E warm began p).
Proof using Hclock.
  unfold get_package_info. cbv zeta.
  eapply safe_bind;
    [apply PackageCache_get_safe| |by intros ? ? [_ (? & ? & _)]
    |by intros ? [_ (? & ? & _)]].
  intros cached.
  eapply (safe_bind _ _ _ _
            (λ r s, or_dict_changed warm
                      (λ o : option info,
                         (always_fails E (Name p) → stale E began (Name p) → o = None)
                         ∧ (always_succeeds E (Name p) → is_Some o)) r)).
  - destruct cached as [i|].
    + intros s [Hs (o & [= <-] & Ho)]. left. exists (Some i). split; [done|].
      split; [done|]. eauto.
    + eapply safe_pre; [intros s [Hs _]; exact Hs|].
      eapply safe_bind;
        [apply get_pypi_info_safe| |by intros ? ? [_ (? & ? & _)]
        |by intros ? [_ (? & ? & _)]].
      intros [i|].
      * eapply (safe_pre _ _ (λ s, worker_pre E warm began (Name p) s
                                   ∧ ¬ always_fails E (Name p))).
        { intros s [Hs (o & [= <-] & Ho & _)]. split; [done|]. by apply Ho. }
        apply safe_pure_pre. intros Hn.
        eapply safe_bind; [by apply PackageCache_set_safe| | |].
        -- intros i' s [Hs _]. left. exists (Some i'). split; [done|].
           split; [done|]. eauto.
        -- intros e s [Hs [(b & Hb & _)|[[= ->] Hw]]]; [done|]. by right.
        -- intros s [Hs [(b & Hb & _)|[Hr _]]]; done.
      * intros s [Hs (o & [= <-] & _ & Ho)]. left. exists None.
        split; [done|]. split; [done|]. done.
  - intros o s [(o' & [= <-] & H1 & H2)|[Hr _]]; [|done].
    left. eexists. split; [done|]. exists (latest_version <$> o).
    split; [done|]. split.
    + intros Hf Hst. by rewrite (H1 Hf Hst).
    + intros Hsucc. destruct (H2 Hsucc) as [i ->]. by eexists.
  - intros e s [(o & Ho & _)|[[= ->] Hw]]; [done|]. by right.
  - intros s [(o & Ho & _)|[Hr _]]; done.
Qed.

End Worker.

Section Aggregator.
Variable E : environment.

Lemma collect_Forall2 {A B} (φ : B → A → Prop) (xs : list B) (rs : list (result A)) :
  Forall2 (λ x r, ∃ a, r = Ok a ∧ φ x a) xs rs →
  ∃ l, collect rs = Ok l ∧ Forall2 φ xs l.
Proof.
  induction 1 as [|x r xs rs (a & -> & Ha) _ (l & Hl & IH)].
  - by exists [].
  - exists (a :: l). cbn. rewrite Hl. split; [done|]. by constructor.
Qed.

Lemma collect_or_dict_changed {A B} (warm : Prop) (φ : B → A → Prop)
    (xs : list B) (rs : list (result A)) :
  Forall2 (λ x r, or_dict_changed warm (φ x) r) xs rs →
  (∃ l, collect rs = Ok l ∧ Forall2 φ xs l)
  ∨ (collect rs = Raise RuntimeError ∧ ¬ warm).
Proof.
  induction 1 as [|x r xs rs [(a & -> & Ha)|[-> Hw]] _ IH]; cbn.
  - left. by exists [].
  - destruct IH as [(l & -> & Hl)|[-> Hw]]; [left|by right].
    exists (a :: l). split; [done|]. by constructor.
  - by right.
Qed.

Lemma collect_describes (ps : list Distribution) (rs : list (result package_tuple)) infos :
  Forall2 describes ps rs → collect rs = Ok infos →
  Forall2 (λ p i, ∃ latest, i = (Name p, version p, latest)) ps infos.
Proof.
  intros H. revert infos. induction H as [|p r ps rs Hr _ IH]; intros infos; cbn.
  - intros [= <-]. constructor.
  - destruct r as [t| |]; [|done..].
    destruct (collect rs) as [l| |]; [|done..]. intros [= <-].
    constructor; [exact Hr|]. by apply IH.
Qed.

Lemma run_executor_map {A B} (f : A → prog B) xs s :
  run (executor_map E f xs) s
  = (collect (pool_exec (schedule E (trace s)) (f <$> xs) s).1,
     (pool_exec (schedule E (trace s)) (f <$> xs) s).2).
Proof. unfold executor_map. cbn. by destruct (pool_exec _ _ s). Qed.

(** ** What a thread does whatever the state: its tuple, the keys it writes *)

Section Within.
Context (G : state → state → Prop) (n : string).
Hypothesis HG : ∀ s s', (∀ m, m ≠ n → cache s' !! m = cache s !! m) → G s s'.

Lemma within_read {B} (f : state → B) (Q : result B → Prop) :
  (∀ b, Q (Ok b)) → within G Q (atomic (λ s, (f s, s))).
Proof using HG. intros HQ. split; [by intros s; apply HG|]. intros b. apply HQ. Qed.

Lemma within_log {B} (f : state → B) ev (Q : result B → Prop) :
  (∀ b, Q (Ok b)) → within G Q (atomic (λ s, (f s, log ev s))).
Proof using HG. intros HQ. split; [by intros s; apply HG|]. intros b. apply HQ. Qed.

Lemma within_get :
  within G (λ r, r ≠ OutOfFuel) (PackageCache_get E n).
Proof using HG.
  unfold PackageCache_get.
  eapply (within_bind _ (λ r, r ≠ OutOfFuel)); [by apply within_read| |done|done]. intros [|] _; [|done].
  eapply (within_bind _ (λ r, r ≠ OutOfFuel)); [|intros entry _|done|done].
  { unfold cache_getitem.
    eapply (within_bind _ (λ r, r ≠ OutOfFuel)); [by apply within_read|by intros [e|] _|done|done]. }
  eapply (within_bind _ (λ r, r ≠ OutOfFuel)); [by destruct (timestamp entry)|intros ts _|done|done].
  eapply (within_bind _ (λ r, r ≠ OutOfFuel)); [by destruct (Datetime.fromisoformat ts)|intros t0 _|done|done].
  eapply (within_bind _ (λ r, r ≠ OutOfFuel)); [by apply within_log|intros t _|done|done].
  destruct (_ <? _)%Z; [|done].
  eapply (within_bind _ (λ r, r ≠ OutOfFuel)); [|by intros|done|done].
  unfold cache_getitem.
  eapply (within_bind _ (λ r, r ≠ OutOfFuel)); [by apply within_read|by intros [e|] _|done|done].
Qed.

Lemma within_get_pypi_info :
  within G (λ r, r ≠ OutOfFuel) (get_pypi_info E n).
Proof using HG.
  unfold get_pypi_info.
  eapply (within_try_except _ (λ r, r ≠ OutOfFuel)); [|done|done].
  eapply (within_bind _ (λ r, r ≠ OutOfFuel)); [|intros out _|done|done].
  { unfold check_output.
    eapply (within_bind _ (λ r, r ≠ OutOfFuel)); [by apply within_log|by intros [out|e] _|done|done]. }
  eapply (within_bind _ (λ r, r ≠ OutOfFuel)); [|by intros|done|done].
  unfold parse_versions. eapply (within_bind _ (λ r, r ≠ OutOfFuel)); [by destruct (last _)|done|done|done].
Qed.

Lemma within_walk steps walk_on same :
  within G (λ r, r ≠ OutOfFuel) (walk steps walk_on same).
Proof using HG.
  revert same. induction steps as [|k IH]; intros same; [done|]. cbn [walk].
  eapply (within_bind _ (λ r, r ≠ OutOfFuel)); [by apply within_read| |done|done].
  intros c _. by case_bool_decide.
Qed.

Lemma within_save :
  within G (λ r, r ≠ OutOfFuel) (PackageCache_save E).
Proof using HG.
  unfold PackageCache_save.
  eapply (within_bind _ (λ r, r ≠ OutOfFuel)); [|intros [] _|done|done].
  { split; [by intros s; apply HG|done]. }
  eapply (within_bind _ (λ r, r ≠ OutOfFuel)); [|done|done|done].
  apply within_on_exit; [|by intros o s; apply HG].
  unfold json_dump.
  eapply (within_bind _ (λ r, r ≠ OutOfFuel)); [by apply within_read| |done|done]. intros [|] _; [done|].
  eapply (within_bind _ (λ r, r ≠ OutOfFuel)); [by apply within_read| |done|done]. intros walk_on _.
  eapply (within_bind _ (λ r, r ≠ OutOfFuel)); [apply within_walk|done|done|done].
Qed.

Lemma within_set i :
  within G (λ r, r ≠ OutOfFuel) (PackageCache_set E n i).
Proof using HG.
  unfold PackageCache_set.
  eapply (within_bind _ (λ r, r ≠ OutOfFuel)); [by apply within_log| |done|done]. intros t _. cbv zeta.
  eapply (within_bind _ (λ r, r ≠ OutOfFuel)); [|intros [] _|done|done].
  { split; [|done]. intros s. apply HG. intros m Hm. cbn. by rewrite lookup_insert_ne. }
  eapply (within_bind _ (λ r, r ≠ OutOfFuel)); [apply within_save|done|done|done].
Qed.

Lemma within_get_package_info p :
  Name p = n → within G (describes p) (get_package_info E p).
Proof using HG.
  intros Hn. unfold get_package_info. cbv zeta. rewrite Hn.
  eapply (within_bind _ (λ r, r ≠ OutOfFuel));
    [apply within_get| |intros e _; exact I|intros H; exfalso; by apply H].
  intros cached _.
  eapply (within_bind _ (λ r, r ≠ OutOfFuel));
    [|intros o _; cbn; eexists; by rewrite Hn|intros e _; exact I
    |intros H; exfalso; by apply H].
  destruct cached as [i|]; [done|].
  eapply (within_bind _ (λ r, r ≠ OutOfFuel));
    [apply within_get_pypi_info| |done|done].
  intros [i|] _; [|done].
  eapply (within_bind _ (λ r, r ≠ OutOfFuel)); [apply within_set|done|done|done].
Qed.

End Within.

(** Whatever the state and the schedule, the results of the threads of the
    aggregator are tuples of their packages, or exceptions. *)
Lemma pool_exec_describes sched packages s :
  Forall2 describes packages
    (pool_exec sched (get_package_info E <$> packages) s).1.
Proof.
  assert (pool_ok (λ _ _, True) ((λ p r (_ : state), describes p r) <$> packages)
            (get_package_info E <$> packages) s) as Hok.
  { induction packages as [|p ps IH]; constructor; [|done].
    exists (λ _, True). split; [done|]. split; [done|].
    apply within_safe. by apply (within_get_package_info _ (Name p)). }
  pose proof (pool_exec_ok _ sched _ _ s Hok) as H.
  apply Forall2_fmap_l in H. eapply Forall2_impl; [exact H|].
  by intros p r [s' Hr].
Qed.

Lemma aggregate_describes packages s infos s' :
  run (aggregate E packages) s = (Ok infos, s') →
  Forall2 (λ p i, ∃ latest, i = (Name p, version p, latest)) packages infos.
Proof.
  unfold aggregate. rewrite run_executor_map. intros [= Hc _].
  eapply collect_describes; [apply pool_exec_describes|exact Hc].
Qed.

Hypothesis Hclock : ∀ tr, Datetime.valid (now E tr) = true.

Lemma pool_ok_workers (warm : Prop) packages s :
  cache_wf (cache s) → (warm → warm_batch E (cache s) packages) →
  pool_ok (guar E warm) (worker_post E warm (cache s) <$> packages)
          (get_package_info E <$> packages) s.
Proof using Hclock.
  intros Hwf Hw.
  assert (Forall (λ p, warm → is_Some (cache s !! Name p) ∨ always_fails E (Name p))
            packages) as Hall.
  { apply Forall_forall. intros p Hp W. by apply (Hw W). }
  clear Hw. induction Hall as [|p ps Hp _ IH]; constructor; [|done].
  exists (worker_pre E warm (cache s) (Name p)).
  split; [apply stable_worker_pre|]. split; [by split|].
  by apply get_package_info_safe.
Qed.

(** The aggregator, whatever the schedule: a tuple per package, in order,
    or the [RuntimeError] of a dump that saw the dict grow. *)
Lemma aggregate_spec (warm : Prop) s packages :
  cache_wf (cache s) → (warm → warm_batch E (cache s) packages) →
  (∃ infos s', run (aggregate E packages) s = (Ok infos, s')
               ∧ Forall2 (tuple_of E (cache s)) packages infos)
  ∨ ((∃ s', run (aggregate E packages) s = (Raise RuntimeError, s')) ∧ ¬ warm).
Proof using Hclock.
  intros Hwf Hw. unfold aggregate. rewrite run_executor_map.
  pose proof (pool_exec_ok (guar E warm) (schedule E (trace s)) _ _ s
                (pool_ok_workers warm packages s Hwf Hw)) as H.
  destruct (pool_exec _ _ s) as [rs s'] eqn:Hexec. cbn [fst snd] in *.
  apply Forall2_fmap_l in H.
  destruct (collect_or_dict_changed warm (tuple_of E (cache s)) packages rs)
    as [(infos & -> & Hall)|[-> Hn]].
  - eapply Forall2_impl; [exact H|]. by intros p r [s1 Hr].
  - left. by exists infos, s'.
  - right. split; [by exists s'|done].
Qed.

(** Claim C4, as amended. Whenever the aggregator returns a list, whatever
    the state it began in and whatever the order in which the pool let its
    threads take their steps (the schedule is the environment's, and
    arbitrary), the list is as long as the list of installed packages and
    its i-th tuple carries the name and the installed version of the i-th
    package. With a clock showing valid datetimes and a cache whose entries
    have readable timestamps, the aggregator returns such a list or ends
    with the [RuntimeError] of [json.dump]; and it returns a list whenever
    the batch adds no key to the cache: every package has an entry already,
    fresh or expired, or queries that always fail. *)
Theorem aggregate_keeps_input_order (s : state) (packages : list Distribution) :
  (∀ infos s',
     run (aggregate E packages) s = (Ok infos, s') →
     length infos = length packages
     ∧ ∀ i p, packages !! i = Some p →
              ∃ latest, infos !! i = Some (Name p, version p, latest))
  ∧ (cache_wf (cache s) →
     (∃ infos s', run (aggregate E packages) s = (Ok infos, s'))
     ∨ (∃ s', run (aggregate E packages) s = (Raise RuntimeError, s')))
  ∧ (cache_wf (cache s) → warm_batch E (cache s) packages →
     ∃ infos s', run (aggregate E packages) s = (Ok infos, s')).
Proof using Hclock.
  split; [|split].
  - intros infos s' Hrun. pose proof (aggregate_describes _ _ _ _ Hrun) as Hall.
    split; [symmetry; by eapply Forall2_length|].
    intros i p Hp.
    destruct (Forall2_lookup_l _ _ _ _ _ Hall Hp) as (x & Hx & latest & ->). eauto.
  - intros Hwf.
    destruct (aggregate_spec False s packages Hwf) as [(infos & s' & Hrun & _)|[H _]];
      [done|left; eauto|by right].
  - intros Hwf Hw.
    destruct (aggregate_spec True s packages Hwf) as [(infos & s' & Hrun & _)|[_ H]];
      [done|eauto|done].
Qed.


End Aggregator.

(* ===================================================================== *)
(** * The menu lines *)
(* ===================================================================== *)

Section Display.
Variable E : environment.

Lemma pool_run_nil {A} sched s : pool_run sched ([] : list (prog A)) s = ([], s).
Proof. induction sched as [|i sched IH]; [done|]. cbn. exact IH. Qed.

Lemma foldl_max_le (l : list nat) (x : nat) :
  x ≤ foldl Nat.max x l ∧ ∀ y, y ∈ l → y ≤ foldl Nat.max x l.
Proof.
  revert x. induction l as [|z l IH]; intros x; cbn.
  - split; [lia|]. intros y Hy. by apply elem_of_nil in Hy.
  - destruct (IH (x `max` z)) as [H1 H2]. split; [lia|].
    intros y [->|Hy]%elem_of_cons; [lia|]. by apply H2.
Qed.

Lemma py_max_ret (l : list nat) :
  l ≠ [] → ∃ m, py_max l = ret m ∧ ∀ y, y ∈ l → y ≤ m.
Proof.
  destruct l as [|x l]; [done|]. intros _. eexists. split; [reflexivity|].
  destruct (foldl_max_le l x) as [H1 H2].
  intros y [->|Hy]%elem_of_cons; eauto.
Qed.

Lemma run_display_packages_nil s :
  run (display_packages E []) s
  = (Raise ValueError, log (EvPrint "Fetching package information...") s).
Proof.
  unfold display_packages. rewrite run_bind. cbn [run print atomic ret].
  rewrite run_bind. unfold aggregate. rewrite run_executor_map.
  unfold pool_exec. cbn [fmap list_fmap]. rewrite pool_run_nil. reflexivity.
Qed.

End Display.

(* ===================================================================== *)
(** * The registry client: what is read off the output of pip *)
(* ===================================================================== *)

Section RegistryClient.
Variable E : environment.
Import Str StrFacts.

Lemma label_border_free : border_free "Available versions: " = true.
Proof. vm_compute. reflexivity. Qed.

(** Claim C7, as amended. For every stdout text of a successful run of
    [pip index versions], [get_pypi_info] takes [rest], everything after the
    last occurrence of the label ["Available versions: "] (the whole text
    when the label does not occur), strips the whitespace at both ends of
    it, and cuts the result at every [", "]: the pieces, none of which
    contains [", "], joined by [", "] give the stripped text back. The
    first piece is reported as the latest version and the list of all of
    them as [all_versions]. *)
Theorem get_pypi_info_parses_after_last_label (s : state) (package_name out : string) :
  subprocess E (trace s) (pip_index_versions package_name) = inl out →
  ∃ rest versions v0,
    ((∃ pre, last_occurrence "Available versions: " pre rest out)
     ∨ (¬ occurs "Available versions: " out ∧ rest = out))
    ∧ (∃ l r, rest = l +:+ strip rest +:+ r
              ∧ all isspace l = true ∧ all isspace r = true)
    ∧ stripped (strip rest)
    ∧ join ", " versions = strip rest
    ∧ Forall (λ v, ¬ occurs ", " v) versions
    ∧ head versions = Some v0
    ∧ run (get_pypi_info E package_name) s
      = (Ok (Some {| latest_version := v0; all_versions := versions;
                     timestamp := None |}),
         log (EvSubprocess (pip_index_versions package_name)) s).
Proof.
  intros Hout. rewrite (run_get_pypi_info_ok E _ _ _ Hout).
  destruct (parse_versions_ret out) as (rest & Hlast & ->).
  assert ("Available versions: " ≠ "") as Hlabel by done.
  assert (", " ≠ "") as Hcomma by done.
  destruct (split_last _ _ _ Hlabel Hlast) as [Hno Hcase].
  destruct (split_spec ", " (strip rest) Hcomma) as [Hjoin Hpieces].
  destruct (split_cons ", " (strip rest)) as (v0 & vs & Hvs).
  destruct (strip_spec rest) as (l & r & Hlr & Hl & Hr & Hstripped).
  exists rest, (split ", " (strip rest)), v0.
  split.
  { destruct Hcase as [[pre Hpre]|[-> Hnone]]; [left|by right].
    exists pre. by apply last_occurrence_intro; [apply label_border_free|..]. }
  split; [by exists l, r|]. split; [done|]. split; [done|]. split; [done|].
  split; [by rewrite Hvs|].
  cbn. by rewrite Hvs.
Qed.

(** Claim C7 as stated fails: on an output with two labels and a final
    newline the code answers from the text after the last label, stripped,
    where the claim's reading starts after the first label and strips
    nothing. *)
Lemma fetchVersions_first_label_counterexample :
  (run (get_pypi_info (Sample.registry_prints Sample.stdout_two_labels) "pkg")
       Sample.boot).1
  = Ok (Some {| latest_version := "2.0"; all_versions := ["2.0"; "1.9"];
                timestamp := None |})
  ∧ spec_fetchVersions Sample.stdout_two_labels
    = Some {| latest_version := "1.0";
              all_versions := ["1.0";
                               "0.9" +:+ Sample.newline +:+ "Available versions: 2.0";
                               "1.9" +:+ Sample.newline];
              timestamp := None |}
  ∧ (run (get_pypi_info (Sample.registry_prints Sample.stdout_two_labels) "pkg")
         Sample.boot).1
    ≠ Ok (spec_fetchVersions Sample.stdout_two_labels).
Proof.
  split; [vm_compute; reflexivity|]. split; [vm_compute; reflexivity|].
  vm_compute. discriminate.
Qed.

End RegistryClient.

Lemma get_pypi_info_parses_after_last_label_witness :
  run (get_pypi_info (Sample.world [] [] []) "requests") Sample.boot
  = (Ok (Some {| latest_version := "2.31.0";
                 all_versions := ["2.31.0"; "2.30.0"; "2.29.0"];
                 timestamp := None |}),
     log (EvSubprocess (pip_index_versions "requests")) Sample.boot).
Proof.
  destruct (get_pypi_info_parses_after_last_label (Sample.world [] [] []) Sample.boot
              "requests" Sample.stdout_requests eq_refl)
    as (rest & versions & v0 & _ & _ & _ & _ & _ & _ & H).
  pose proof H as H'. vm_compute in H'. injection H' as <- <-. exact H.
Defined.

(* ===================================================================== *)
(** * Concurrent writers, and the main loop *)
(* ===================================================================== *)

Section Writers.
Variable E : environment.

(** Claim C8, as amended. [PackageCache.set] takes no lock. Run alone, with
    no other handle open on the cache file, it leaves the file holding the
    whole mapping that is in memory, and closed. But whatever the state,
    the names and the infos, two [set] calls running in two threads of the
    pool can both have the file open for writing at once; and when the
    second call adds a key while the dump of the first is walking the dict,
    the first call ends with [RuntimeError]: under the schedule below its
    walk has begun when the second call stores, and its next step raises. *)
Theorem concurrent_sets_not_serialized (s : state) (n1 n2 : string) (i1 i2 : info) :
  (writers s = 0 →
   cache_file (run (PackageCache_set E n1 i1) s).2
   = FileJson (cache (run (PackageCache_set E n1 i1) s).2)
   ∧ writers (run (PackageCache_set E n1 i1) s).2 = 0)
  ∧ writers (pool_run [0; 0; 0; 1; 1; 1]
               [PackageCache_set E n1 i1; PackageCache_set E n2 i2] s).2
    = writers s + 2
  ∧ (cache s !! n2 = None → n1 ≠ n2 →
     (pool_run [0; 0; 0; 0; 0; 1; 1; 0; 0]
        [PackageCache_set E n1 i1; PackageCache_set E n2 i2] s).1 !! 0
     = Some (Done (Raise RuntimeError))).
Proof.
  split; [|split].
  - intros Hw. by rewrite run_set.
  - cbn. lia.
  - intros Hn2 Hne. cbn.
    rewrite (bool_decide_false (<[n1:=_]> (cache s) = ∅)) by apply insert_non_empty.
    cbn. rewrite bool_decide_false; [done|].
    rewrite (map_size_insert_None n2); [lia|]. by rewrite lookup_insert_ne.
Qed.
End Writers.

Lemma concurrent_sets_not_serialized_witness :
  cache_file (run (PackageCache_set (Sample.world [] [] []) "foo" Sample.foo_info) Sample.boot).2
  = FileJson (cache (run (PackageCache_set (Sample.world [] [] []) "foo" Sample.foo_info)
                         Sample.boot).2)
  ∧ writers (run (PackageCache_set (Sample.world [] [] []) "foo" Sample.foo_info)
                 Sample.boot).2 = 0.
Proof.
  apply (proj1 (concurrent_sets_not_serialized (Sample.world [] [] []) Sample.boot
                  "foo" "bar" Sample.foo_info Sample.foo_info)).
  reflexivity.
Defined.

(** Claim C8 as stated fails: with two packages to look up and an empty
    cache, the pool reaches a state in which two threads hold the cache file
    open for rewriting. *)
Lemma writers_overlap_counterexample :
  writers (pool_run [0; 1; 0; 1; 0; 1; 0; 1; 0; 1]
             (get_package_info (Sample.world [] [] []) <$> [Sample.requests; Sample.six])
             Sample.boot).2 = 2
  ∧ ¬ (∀ sched,
         writers (pool_run sched
                    (get_package_info (Sample.world [] [] [])
                       <$> [Sample.requests; Sample.six])
                    Sample.boot).2 ≤ 1).
Proof.
  split; [vm_compute; reflexivity|].
  intros H. specialize (H [0; 1; 0; 1; 0; 1; 0; 1; 0; 1]).
  vm_compute in H. lia.
Qed.

Section Shell.
Variable E : environment.

(** A round of the main loop: refresh, main menu, options of the chosen
    package, next round. What [package_options] answers is not looked at. *)
Lemma run_main_loop_refresh fuel s :
  run (main_loop E (S fuel)) s
  = run (pm ← refresh E;
         choice_index ← TerminalMenu_show E "Python Package Manager" pm.2;
         match choice_index with
         | None => print "Exiting the package manager."
         | Some i =>
             item ← list_getitem pm.2 i;
             if bool_decide (item = "Quit") then print "Exiting the package manager."
             else
               package ← list_getitem pm.1 i;
               package_options E fuel (Name package);;
               main_loop E fuel
         end) s.
Proof.
  cbn [main_loop]. unfold refresh.
  rewrite !run_bind. destruct (run clear_screen s) as [[[]|e|] s0]; [|done..].
  rewrite !run_bind. destruct (run (get_installed_packages E) s0) as [[packages|e|] s1]; [|done..].
  rewrite !run_bind. destruct (run (display_packages E packages) s1) as [[items|e|] s2]; [|done..].
  cbn [run ret fst snd]. rewrite !run_bind.
  destruct (run (TerminalMenu_show E _ _) s2) as [[[i|]|e|] s3]; [|done..].
  rewrite !run_bind. destruct (run (list_getitem _ i) s3) as [[item|e|] s4]; [|done..].
  case_bool_decide; [done|].
  rewrite !run_bind. destruct (run (list_getitem packages i) s4) as [[p|e|] s5]; [|done..].
  rewrite !run_bind. destruct (run (package_options E fuel (Name p)) s5) as [[[]|e|] s6]; done.
Qed.

(** Once a package was chosen and its menu of options left, with [True] or
    with [False], the loop goes on with its next round from the state the
    options left: enumeration and aggregation are run again either way. *)
Theorem main_loop_next_round_whatever_the_answer fuel s packages menu_items s1 i item p b s2 :
  run (refresh E) s = (Ok (packages, menu_items), s1) →
  show E (trace s1) "Python Package Manager" menu_items = Some i →
  menu_items !! i = Some item → item ≠ "Quit" →
  packages !! i = Some p →
  run (package_options E fuel (Name p))
      (log (EvMenu "Python Package Manager" menu_items) s1) = (Ok b, s2) →
  run (main_loop E (S fuel)) s = run (main_loop E fuel) s2.
Proof.
  intros Hr Hshow Hitem Hq Hp Hopt. rewrite run_main_loop_refresh.
  rewrite run_bind, Hr. cbn [fst snd]. rewrite run_bind. cbn [run TerminalMenu_show atomic ret].
  rewrite Hshow. rewrite run_bind. unfold list_getitem at 1. rewrite Hitem. cbn [run ret].
  rewrite bool_decide_false by done.
  rewrite run_bind. unfold list_getitem. rewrite Hp. cbn [run ret].
  rewrite run_bind, Hopt. done.
Qed.
End Shell.

(** The same, after an upgrade that succeeded. *)
Example main_refreshes_after_upgrade :
  (run (main (Sample.world [] [Some 0; Some 0; None] []) 3) Sample.boot).1 = Ok tt
  ∧ Sample.count Sample.is_upgrade
      (trace (run (main (Sample.world [] [Some 0; Some 0; None] []) 3) Sample.boot).2) = 1
  ∧ Sample.count Sample.is_enumeration
      (trace (run (main (Sample.world [] [Some 0; Some 0; None] []) 3) Sample.boot).2) = 2
  ∧ Sample.count Sample.is_aggregation
      (trace (run (main (Sample.world [] [Some 0; Some 0; None] []) 3) Sample.boot).2) = 2.
Proof. repeat split; vm_compute; reflexivity. Qed.

(** Claim C9, on the code: the user picks the first package in the main
    menu, picks Back in its menu of options, then dismisses the main menu.
    Three menus were shown, and the installed packages were enumerated
    twice and aggregated twice: Back was followed by a full refresh, down
    to a second query of the registry for the package it does not know. *)
Example main_refreshes_after_Back :
  (run (main (Sample.world [] [Some 0; Some 3; None] []) 3) Sample.boot).1 = Ok tt
  ∧ Sample.count Sample.is_menu
      (trace (run (main (Sample.world [] [Some 0; Some 3; None] []) 3) Sample.boot).2) = 3
  ∧ Sample.count Sample.is_enumeration
      (trace (run (main (Sample.world [] [Some 0; Some 3; None] []) 3) Sample.boot).2) = 2
  ∧ Sample.count Sample.is_aggregation
      (trace (run (main (Sample.world [] [Some 0; Some 3; None] []) 3) Sample.boot).2) = 2
  ∧ registry_calls "ghost"
      (trace (run (main (Sample.world [] [Some 0; Some 3; None] []) 3) Sample.boot).2) = 2.
Proof. repeat split; vm_compute; reflexivity. Qed.

(* ===================================================================== *)
(** * The theorems at work on the sample worlds *)
(* ===================================================================== *)

Section Witnesses.
Import Sample.

Lemma get_pypi_info_exit_nonzero_witness :
  run (get_pypi_info (world [] [] []) "ghost") boot
  = (Ok None, log (EvSubprocess (pip_index_versions "ghost")) boot).
Proof.
  apply (get_pypi_info_exit_nonzero (world [] [] []) boot "ghost" exit_status_1).
  reflexivity.
Defined.

Lemma PackageCache_get_iff_fresh_witness :
  (∃ r s', run (PackageCache_get (world [noon; at_time 12 30] [] []) "foo") foo_cached
           = (Ok r, s')
           ∧ cache s' = cache foo_cached
           ∧ ∀ i, r = Some i ↔
                  cache foo_cached !! "foo" = Some i ∧ fresh (at_time 12 30) i)
  ∧ (run (PackageCache_get (world [noon; at_time 12 30] [] []) "foo")
         (run (PackageCache_set (world [noon; at_time 12 30] [] []) "foo" foo_info) boot).2).1
    = Ok (Some (stamp noon foo_info))
  ∧ (run (PackageCache_get (world [noon; at_time 13 30] [] []) "foo")
         (run (PackageCache_set (world [noon; at_time 13 30] [] []) "foo" foo_info) boot).2).1
    = Ok None.
Proof.
  split; [|split].
  - apply (proj1 (PackageCache_get_iff_fresh (world [noon; at_time 12 30] [] [])
                    foo_cached "foo")).
    intros e He. vm_compute in He. injection He as <-. exists noon. vm_compute. reflexivity.
  - refine (proj1 (proj2 (PackageCache_get_iff_fresh (world [noon; at_time 12 30] [] [])
                     boot "foo") foo_info noon (at_time 12 30) _ _ _) _);
      vm_compute; reflexivity.
  - refine (proj2 (proj2 (PackageCache_get_iff_fresh (world [noon; at_time 13 30] [] [])
                     boot "foo") foo_info noon (at_time 13 30) _ _ _) _);
      vm_compute; reflexivity.
Defined.

Lemma set_then_load_round_trip_witness :
  ∃ s1 s2 e,
    (run (PackageCache_set (world [] [] []) "foo" foo_info) boot).2 = s1
    ∧ run PackageCache_init (fresh_process (cache_file s1) (trace s1)) = (Ok tt, s2)
    ∧ cache s2 = cache s1
    ∧ cache s2 !! "foo" = Some e
    ∧ latest_version e = "2.0"
    ∧ all_versions e = ["2.0"; "1.9"]
    ∧ fresh noon e
    ∧ (fresh (now (world [] [] []) (trace s2)) e →
       (run (PackageCache_get (world [] [] []) "foo") s2).1 = Ok (Some e)).
Proof.
  apply (proj1 (set_then_load_round_trip (world [] [] []) boot "foo" foo_info)).
  - reflexivity.
  - vm_compute. reflexivity.
Defined.

Lemma get_package_info_cache_witness :
  (∃ s', run (get_package_info (world [noon; at_time 12 30] [] []) foo) foo_cached
         = (Ok ("foo", "1.9", Some "2.0"), s')
         ∧ registry_calls "foo" (trace s') = registry_calls "foo" (trace foo_cached)
         ∧ cache s' = cache foo_cached)
  ∧ (∃ s' e', run (get_package_info (world [] [] []) requests) boot
              = (Ok ("requests", "2.28.0", Some (latest_version e')), s')
              ∧ cache s' !! "requests" = Some e'
              ∧ cached_time e' = Some noon
              ∧ fresh noon e'
              ∧ registry_calls "requests" (trace s') = 1
              ∧ (writers boot = 0 → cache_file s' = FileJson (cache s'))).
Proof.
  split.
  - apply (proj1 (get_package_info_cache (world [noon; at_time 12 30] [] [])
                    foo_cached foo) (stamp noon foo_info)).
    + vm_compute. reflexivity.
    + exists noon. vm_compute. split; reflexivity.
  - apply (proj2 (get_package_info_cache (world [] [] []) boot requests)
             [] stdout_requests).
    + left. split; vm_compute; reflexivity.
    + reflexivity.
    + vm_compute. reflexivity.
Defined.

Lemma world_clock_valid readings script sched :
  Forall (λ t, Datetime.valid t = true) readings →
  ∀ tr, Datetime.valid (now (world readings script sched) tr) = true.
Proof.
  intros Hall tr. cbn. destruct (readings !! _) as [t|] eqn:Ht; cbn.
  - rewrite Forall_forall in Hall. apply Hall. by eapply list_elem_of_lookup_2.
  - reflexivity.
Qed.

Lemma ghost_always_fails readings script sched :
  always_fails (world readings script sched) "ghost".
Proof. intros tr. exists exit_status_1. reflexivity. Qed.


Lemma warmed_wf : cache_wf (cache Scenario.warmed).
Proof.
  intros n e. unfold Scenario.warmed, after_set, boot, fresh_process. cbn [cache].
  rewrite lookup_insert. case_decide; [intros [= <-]; by eexists|].
  rewrite lookup_insert. case_decide; [intros [= <-]; by eexists|].
  by rewrite lookup_empty.
Qed.

Lemma warmed_warm readings script sched :
  warm_batch (world readings script sched) (cache Scenario.warmed) [requests; ghost; six].
Proof.
  intros p Hp.
  repeat (apply elem_of_cons in Hp as [->|Hp]);
    [left; by eexists|right; apply ghost_always_fails|left; by eexists|].
  by apply elem_of_nil in Hp.
Qed.

Lemma aggregate_keeps_input_order_witness :
  ∃ infos s',
    run (aggregate (world [] [] reverse_order) [requests; ghost; six]) Scenario.warmed
    = (Ok infos, s')
    ∧ length infos = 3
    ∧ ∀ i p, [requests; ghost; six] !! i = Some p →
             ∃ latest, infos !! i = Some (Name p, version p, latest).
Proof.
  destruct (aggregate_keeps_input_order (world [] [] reverse_order)
              (world_clock_valid [] [] _ ltac:(constructor))
              Scenario.warmed [requests; ghost; six]) as (Horder & _ & Hreturns).
  destruct (Hreturns warmed_wf (warmed_warm _ _ _)) as (infos & s' & Hrun).
  exists infos, s'. split; [exact Hrun|]. exact (Horder infos s' Hrun).
Defined.

(** Claim C4 as stated fails: on a cache that is empty, with two packages
    whose lookups succeed, there is a schedule under which the aggregator
    returns no list at all. The thread of [requests] has begun the walk of
    its dump when the thread of [six] stores its entry; the walk raises
    [RuntimeError], and collecting the results raises it again. *)
Lemma aggregate_cold_start_counterexample :
  (run (aggregate (world [] [] (Scenario.store_during_walk 1)) [requests; six]) boot).1
  = Raise RuntimeError
  ∧ ¬ (∀ sched, ∃ infos,
         (run (aggregate (world [] [] sched) [requests; six]) boot).1 = Ok infos
         ∧ length infos = 2).
Proof.
  split; [vm_compute; reflexivity|].
  intros H. destruct (H (Scenario.store_during_walk 1)) as (infos & Hrun & _).
  vm_compute in Hrun. discriminate Hrun.
Qed.




End Witnesses.

(* ===================================================================== *)
(** * The shell never writes the cache *)
(* ===================================================================== *)

Section Quiet.

Lemma logs_nil s : logs [] s = s.
Proof. destruct s. unfold logs. cbn. by rewrite app_nil_r. Qed.

Lemma logs_log ev evs s : logs evs (log ev s) = logs (ev :: evs) s.
Proof. unfold logs, log. cbn. by rewrite <- app_assoc. Qed.

Lemma log_logs ev s : log ev s = logs [ev] s.
Proof. reflexivity. Qed.

Lemma logs_logs evs evs' s : logs evs' (logs evs s) = logs (evs ++ evs') s.
Proof. unfold logs. cbn. by rewrite <- app_assoc. Qed.

Lemma quiet_bind {A B} (m : prog A) (f : A → prog B) :
  quiet m → (∀ a, quiet (f a)) → quiet (m ≫= f).
Proof.
  intros Hm Hf. induction m as [[a|e|]|C act k IH]; cbn in *; [auto|done|done|].
  destruct Hm as [Hact Hk]. split; [done|]. intros b. by apply IH.
Qed.

Lemma quiet_try_except {A} (m : prog A) h :
  quiet m → (∀ e, quiet (h e)) → quiet (try_except m h).
Proof.
  intros Hm Hh. induction m as [[a|[]|]|C act k IH]; cbn in *; auto.
  destruct Hm as [Hact Hk]. split; [done|]. intros b. by apply IH.
Qed.

Lemma quiet_run {A} (p : prog A) s :
  quiet p → store (run p s).2 = store s ∧ trace s `prefix_of` trace (run p s).2.
Proof.
  revert s. induction p as [r|B act k IH]; intros s Hq; cbn in *.
  - done.
  - destruct Hq as [Hact Hk]. destruct (Hact s) as [Hst Htr].
    destruct (act s) as [b s1]. cbn in *.
    destruct (IH b s1 (Hk b)) as [Hst' Htr'].
    split; [congruence|]. by etrans.
Qed.

Lemma quiet_log {A} (f : state → A) ev : quiet (atomic (λ s, (f s, log ev s))).
Proof.
  split; [|done]. intros s. split; [done|]. cbn. by apply prefix_app_r.
Qed.

Lemma quiet_read {A} (f : state → A) : quiet (atomic (λ s, (f s, s))).
Proof. split; [|done]. intros s. done. Qed.

End Quiet.

Section Actions.
Variable E : environment.

Lemma quiet_print msg : quiet (print msg).
Proof. apply (quiet_log (λ _, tt)). Qed.
Lemma quiet_input msg : quiet (input msg).
Proof. apply (quiet_log (λ _, tt)). Qed.
Lemma quiet_logging_info msg : quiet (logging_info msg).
Proof. apply (quiet_log (λ _, tt)). Qed.
Lemma quiet_logging_error msg : quiet (logging_error msg).
Proof. apply (quiet_log (λ _, tt)). Qed.
Lemma quiet_clear_screen : quiet clear_screen.
Proof. apply (quiet_log (λ _, tt)). Qed.
Lemma quiet_datetime_now : quiet (datetime_now E).
Proof. apply (quiet_log (λ s, now E (trace s))). Qed.
Lemma quiet_get_installed_packages : quiet (get_installed_packages E).
Proof. apply (quiet_log (λ s, distributions E (trace s))). Qed.
Lemma quiet_TerminalMenu_show title entries : quiet (TerminalMenu_show E title entries).
Proof. apply (quiet_log (λ s, show E (trace s) title entries)). Qed.

Lemma quiet_check_output args : quiet (check_output E args).
Proof.
  unfold check_output. apply quiet_bind.
  - apply (quiet_log (λ s, subprocess E (trace s) args)).
  - by intros [].
Qed.

Lemma quiet_check_call args : quiet (check_call E args).
Proof. unfold check_call. apply quiet_bind; [apply quiet_check_output|done]. Qed.

Lemma quiet_list_getitem {A} (l : list A) i : quiet (list_getitem l i).
Proof. unfold list_getitem. by destruct (l !! i). Qed.

Lemma quiet_cache_getitem name : quiet (cache_getitem name).
Proof.
  unfold cache_getitem. apply quiet_bind; [apply (quiet_read (λ s, cache s !! name))|].
  by intros [].
Qed.

Lemma quiet_PackageCache_get name : quiet (PackageCache_get E name).
Proof.
  unfold PackageCache_get. apply quiet_bind.
  { apply (quiet_read (λ s, bool_decide (is_Some (cache s !! name)))). }
  intros [] ; [|done].
  apply quiet_bind; [apply quiet_cache_getitem|]. intros entry.
  apply quiet_bind; [by destruct (timestamp entry)|]. intros ts.
  apply quiet_bind; [by destruct (Datetime.fromisoformat ts)|]. intros t0.
  apply quiet_bind; [apply quiet_datetime_now|]. intros t.
  destruct (_ <? _)%Z; [|done].
  apply quiet_bind; [apply quiet_cache_getitem|done].
Qed.

Lemma quiet_get_pypi_info name : quiet (get_pypi_info E name).
Proof.
  unfold get_pypi_info. apply quiet_try_except; [|done].
  apply quiet_bind; [apply quiet_check_output|]. intros out.
  apply quiet_bind; [|done].
  unfold parse_versions. apply quiet_bind; [by destruct (last _)|done].
Qed.

Ltac quiet_steps :=
  repeat lazymatch goal with
    | |- quiet (print _) => apply quiet_print
    | |- quiet (input _) => apply quiet_input
    | |- quiet (logging_info _) => apply quiet_logging_info
    | |- quiet (logging_error _) => apply quiet_logging_error
    | |- quiet (check_call _ _) => apply quiet_check_call
    | |- quiet (_ ≫= _) => apply quiet_bind; [|intros ?]
    | |- quiet (try_except _ _) => apply quiet_try_except; [|intros ?]
    | |- quiet (ret _) => exact I
    end.

Lemma quiet_upgrade_package name : quiet (upgrade_package E name).
Proof. unfold upgrade_package. quiet_steps. Qed.

Lemma quiet_uninstall_package name : quiet (uninstall_package E name).
Proof. unfold uninstall_package. quiet_steps. Qed.

Lemma quiet_install_specific_version name v : quiet (install_specific_version E name v).
Proof. unfold install_specific_version. quiet_steps. Qed.

Lemma quiet_downgrade_loop fuel name title versions :
  quiet (downgrade_loop E fuel name title versions).
Proof.
  induction fuel as [|fuel IH]; [done|]. cbn [downgrade_loop].
  apply quiet_bind; [apply quiet_TerminalMenu_show|]. intros [i|]; [|done].
  apply quiet_bind; [apply quiet_list_getitem|]. intros v.
  case_bool_decide; [done|].
  apply quiet_bind; [apply quiet_install_specific_version|]. by intros [].
Qed.

Lemma quiet_downgrade_package fuel name : quiet (downgrade_package E fuel name).
Proof.
  unfold downgrade_package.
  apply quiet_bind; [apply quiet_print|]. intros _.
  apply quiet_bind; [apply quiet_PackageCache_get|]. intros cached.
  apply quiet_bind.
  { destruct cached; [done|apply quiet_get_pypi_info]. }
  intros [i|].
  - apply quiet_bind; [apply quiet_get_installed_packages|]. intros installed.
    apply quiet_downgrade_loop.
  - quiet_steps.
Qed.

Lemma quiet_package_options fuel name : quiet (package_options E fuel name).
Proof.
  induction fuel as [|fuel IH]; [done|]. cbn [package_options].
  apply quiet_bind; [apply quiet_TerminalMenu_show|]. intros [i|]; [|done].
  apply quiet_bind; [apply quiet_list_getitem|]. intros choice.
  case_bool_decide; [done|].
  apply quiet_bind.
  { repeat case_bool_decide;
      [apply quiet_upgrade_package|apply quiet_downgrade_package
      |apply quiet_uninstall_package|done]. }
  by intros [].
Qed.

End Actions.


(* ===================================================================== *)
(** * The actions of the shell *)
(* ===================================================================== *)

Section ActionResults.
Variable E : environment.

Lemma run_check_call args s :
  run (check_call E args) s
  = (match subprocess E (trace s) args with
     | inl _ => Ok tt
     | inr e => Raise (ProcessError e)
     end, log (EvSubprocess args) s).
Proof. unfold check_call, check_output. cbn. by destruct (subprocess _ _ _). Qed.

Lemma run_upgrade_package name s :
  run (upgrade_package E name) s
  = match subprocess E (trace s) (pip_upgrade name) with
    | inl _ =>
        (Ok true,
         logs [EvSubprocess (pip_upgrade name);
               EvLogInfo ("Successfully upgraded " +:+ name);
               EvPrint (Fore_GREEN +:+ "Successfully upgraded " +:+ name
                        +:+ Style_RESET_ALL)] s)
    | inr e =>
        (Ok false,
         logs [EvSubprocess (pip_upgrade name);
               EvLogError ("Failed to upgrade " +:+ name +:+ ": " +:+ cpe_str e);
               EvPrint (Fore_RED +:+ "Failed to upgrade " +:+ name +:+ Style_RESET_ALL);
               press_enter] s)
    end.
Proof.
  unfold upgrade_package. rewrite run_try_except, run_bind, run_check_call.
  fold (pip_upgrade name).
  destruct (subprocess E (trace s) (pip_upgrade name)) as [out|e]; cbn;
    unfold logs, log; cbn; by rewrite <- ?app_assoc.
Qed.

Lemma run_uninstall_package name s :
  run (uninstall_package E name) s
  = match subprocess E (trace s) (pip_uninstall name) with
    | inl _ =>
        (Ok true,
         logs [EvSubprocess (pip_uninstall name);
               EvLogInfo ("Successfully uninstalled " +:+ name);
               EvPrint (Fore_GREEN +:+ "Successfully uninstalled " +:+ name
                        +:+ Style_RESET_ALL)] s)
    | inr e =>
        (Ok false,
         logs [EvSubprocess (pip_uninstall name);
               EvLogError ("Failed to uninstall " +:+ name +:+ ": " +:+ cpe_str e);
               EvPrint (Fore_RED +:+ "Failed to uninstall " +:+ name +:+ Style_RESET_ALL);
               press_enter] s)
    end.
Proof.
  unfold uninstall_package. rewrite run_try_except, run_bind, run_check_call.
  fold (pip_uninstall name).
  destruct (subprocess E (trace s) (pip_uninstall name)) as [out|e]; cbn;
    unfold logs, log; cbn; by rewrite <- ?app_assoc.
Qed.

Lemma run_install_specific_version name v s :
  run (install_specific_version E name v) s
  = match subprocess E (trace s ++ [attempting name v]) (pip_install_version name v) with
    | inl _ =>
        (Ok true,
         logs [attempting name v;
               EvSubprocess (pip_install_version name v);
               EvLogInfo ("Successfully installed " +:+ name +:+ " version " +:+ v);
               EvPrint (Fore_GREEN +:+ "Successfully installed " +:+ name
                        +:+ " version " +:+ v +:+ Style_RESET_ALL)] s)
    | inr e =>
        (Ok false,
         logs [attempting name v;
               EvSubprocess (pip_install_version name v);
               EvLogError ("Failed to install " +:+ name +:+ " version " +:+ v
                           +:+ ": " +:+ py_or (cpe_stderr e) (cpe_str e));
               EvPrint (Fore_RED +:+ "Failed to install " +:+ name +:+ " version "
                        +:+ v +:+ Style_RESET_ALL);
               EvPrint ("Error: " +:+ py_or (cpe_stderr e) (cpe_str e));
               EvPrint "Please try a different version.";
               press_enter] s)
    end.
Proof.
  unfold install_specific_version. rewrite run_try_except, run_bind.
  cbn [run print atomic ret]. rewrite run_bind, run_check_call.
  fold (pip_install_version name v). cbn [trace log]. fold (attempting name v).
  destruct (subprocess E _ (pip_install_version name v)) as [out|e]; cbn;
    unfold logs, log; cbn; by rewrite <- ?app_assoc.
Qed.

End ActionResults.

Ltac not_among :=
  let H := fresh in
  intros H; repeat (apply elem_of_cons in H as [H|H]; [discriminate H|]);
  by apply elem_of_nil in H.

Ltac among := repeat first [by apply list_elem_of_here | apply list_elem_of_further].

Section ShellTheorems.
Variable E : environment.

(** [upgrade_package] and [uninstall_package] never raise: each runs its one
    installer command, returns [True] exactly when the command exits with
    status 0, and waits for the Enter key exactly when it returns [False].
    Neither touches the cache. *)
Theorem upgrade_uninstall_report_exit_status (package_name : string) (s : state) :
  (∃ b evs,
     run (upgrade_package E package_name) s = (Ok b, logs evs s)
     ∧ commands evs = [pip_upgrade package_name]
     ∧ (b = true ↔ ∃ out, subprocess E (trace s) (pip_upgrade package_name) = inl out)
     ∧ (press_enter ∈ evs ↔ b = false))
  ∧ (∃ b evs,
       run (uninstall_package E package_name) s = (Ok b, logs evs s)
       ∧ commands evs = [pip_uninstall package_name]
       ∧ (b = true ↔ ∃ out, subprocess E (trace s) (pip_uninstall package_name) = inl out)
       ∧ (press_enter ∈ evs ↔ b = false)).
Proof.
  split.
  - rewrite run_upgrade_package.
    destruct (subprocess E (trace s) (pip_upgrade package_name)) as [out|e].
    + eexists _, _. split; [done|]. split; [done|]. split; [by split; eauto|].
      unfold press_enter. split; [not_among|done].
    + eexists _, _. split; [done|]. split; [done|]. split; [split; [done|by intros []]|].
      split; [done|]. intros _. among.
  - rewrite run_uninstall_package.
    destruct (subprocess E (trace s) (pip_uninstall package_name)) as [out|e].
    + eexists _, _. split; [done|]. split; [done|]. split; [by split; eauto|].
      unfold press_enter. split; [not_among|done].
    + eexists _, _. split; [done|]. split; [done|]. split; [split; [done|by intros []]|].
      split; [done|]. intros _. among.
Qed.

(** [install_specific_version] never raises: it announces the attempt, runs
    [pip install name==version] once, returns [True] exactly when that exits
    with status 0, and otherwise shows the error text, which is the command's
    stderr, or the text of the exception when stderr is empty, before it
    waits for the Enter key. *)
Theorem install_specific_version_reports (package_name version : string) (s : state) :
  ∃ b evs,
    run (install_specific_version E package_name version) s = (Ok b, logs evs s)
    ∧ commands evs = [pip_install_version package_name version]
    ∧ head evs = Some (attempting package_name version)
    ∧ (b = true ↔
       ∃ out, subprocess E (trace s ++ [attempting package_name version])
                (pip_install_version package_name version) = inl out)
    ∧ (press_enter ∈ evs ↔ b = false)
    ∧ ∀ e, subprocess E (trace s ++ [attempting package_name version])
             (pip_install_version package_name version) = inr e →
           EvPrint ("Error: " +:+ (if bool_decide (cpe_stderr e = "")
                                   then cpe_str e else cpe_stderr e)) ∈ evs.
Proof.
  rewrite run_install_specific_version.
  destruct (subprocess E _ (pip_install_version package_name version)) as [out|e].
  - eexists _, _. split; [done|]. split; [done|]. split; [done|].
    split; [by split; eauto|]. split; [|done].
    unfold press_enter, attempting. split; [not_among|done].
  - eexists _, _. split; [done|]. split; [done|]. split; [done|].
    split; [split; [done|by intros []]|].
    split; [split; [done|intros _; among]|].
    intros e' [= <-].
    assert (py_or (cpe_stderr e) (cpe_str e)
            = if bool_decide (cpe_stderr e = "") then cpe_str e else cpe_stderr e) as <-.
    { destruct (cpe_stderr e); done. }
    among.
Qed.

(** Whatever the user does in the menu of a package (upgrades, downgrades,
    uninstalls, failed or not, any number of them), the cache is not
    written: in memory and on disk it is what it was. In particular the
    versions [downgrade_package] fetches from the registry are not cached.
    The trace only grows. *)
Theorem package_options_leaves_cache (fuel : nat) (package_name : string) (s : state) :
  cache (run (package_options E fuel package_name) s).2 = cache s
  ∧ cache_file (run (package_options E fuel package_name) s).2 = cache_file s
  ∧ trace s `prefix_of` trace (run (package_options E fuel package_name) s).2.
Proof.
  destruct (quiet_run (package_options E fuel package_name) s
              (quiet_package_options E fuel package_name)) as [Hst Htr].
  unfold store in Hst. by injection Hst as -> -> _ _.
Qed.

End ShellTheorems.

Section Options.
Variable E : environment.

Lemma installer_succeeded_weaken name tr0 tr tr' :
  tr0 `prefix_of` tr → installer_succeeded E name tr tr' →
  installer_succeeded E name tr0 tr'.
Proof.
  intros Hp (pre & post & args & out & -> & Hpre & Hcmd & Hout).
  exists pre, post, args, out. split; [done|]. split; [by etrans|]. done.
Qed.

Lemma run_bind_true {A} (m : prog A) (f : A → prog bool) s s' :
  quiet m → run (m ≫= f) s = (Ok true, s') →
  ∃ a s1, run m s = (Ok a, s1) ∧ trace s `prefix_of` trace s1
          ∧ run (f a) s1 = (Ok true, s').
Proof.
  intros Hq. rewrite run_bind. destruct (quiet_run m s Hq) as [_ Hp].
  destruct (run m s) as [[a|e|] s1]; [|done..]. intros H. by exists a, s1.
Qed.

Lemma run_TerminalMenu_show title entries s :
  run (TerminalMenu_show E title entries) s
  = (Ok (show E (trace s) title entries), log (EvMenu title entries) s).
Proof. reflexivity. Qed.

Lemma install_specific_version_true name v s s' :
  run (install_specific_version E name v) s = (Ok true, s') →
  installer_succeeded E name (trace s) (trace s').
Proof.
  rewrite run_install_specific_version.
  destruct (subprocess E _ (pip_install_version name v)) as [out|e] eqn:Hout; [|done].
  intros [= <-]. eexists (trace s ++ [attempting name v]), _, _, out.
  split; [|split; [by apply prefix_app_r|split; [|exact Hout]]].
  - cbn. by rewrite <- app_assoc.
  - right. left. by exists v.
Qed.

Lemma downgrade_loop_true fuel name title versions s s' :
  run (downgrade_loop E fuel name title versions) s = (Ok true, s') →
  installer_succeeded E name (trace s) (trace s').
Proof.
  revert s. induction fuel as [|fuel IH]; intros s; [done|]. cbn [downgrade_loop].
  intros H. apply run_bind_true in H as (choice & s1 & Hshow & Hp1 & H);
    [|apply quiet_TerminalMenu_show].
  destruct choice as [i|]; [|done].
  apply run_bind_true in H as (v & s2 & Hv & Hp2 & H); [|apply quiet_list_getitem].
  case_bool_decide; [done|].
  apply run_bind_true in H as (ok & s3 & Hok & Hp3 & H);
    [|apply quiet_install_specific_version].
  eapply installer_succeeded_weaken; [by etrans|].
  destruct ok.
  - injection H as <-. by eapply install_specific_version_true.
  - eapply installer_succeeded_weaken; [exact Hp3|]. by apply IH.
Qed.

Lemma downgrade_package_true fuel name s s' :
  run (downgrade_package E fuel name) s = (Ok true, s') →
  installer_succeeded E name (trace s) (trace s').
Proof.
  unfold downgrade_package. intros H.
  apply run_bind_true in H as (? & s1 & _ & Hp1 & H); [|apply quiet_print].
  apply run_bind_true in H as (cached & s2 & _ & Hp2 & H); [|apply quiet_PackageCache_get].
  apply run_bind_true in H as (pypi & s3 & _ & Hp3 & H).
  2:{ destruct cached; [done|apply quiet_get_pypi_info]. }
  destruct pypi as [i|].
  - apply run_bind_true in H as (installed & s4 & _ & Hp4 & H);
      [|apply quiet_get_installed_packages].
    eapply installer_succeeded_weaken; [|by eapply downgrade_loop_true].
    by repeat (etrans; [eassumption|]).
  - apply run_bind_true in H as (? & s4 & _ & _ & H); [|apply quiet_print].
    apply run_bind_true in H as (? & s5 & _ & _ & H); [|apply quiet_input]. done.
Qed.

Lemma upgrade_package_true name s s' :
  run (upgrade_package E name) s = (Ok true, s') →
  installer_succeeded E name (trace s) (trace s').
Proof.
  rewrite run_upgrade_package.
  destruct (subprocess E _ (pip_upgrade name)) as [out|e] eqn:Hout; [|done].
  intros [= <-]. eexists (trace s), _, _, out.
  split; [done|]. split; [done|]. split; [by left|done].
Qed.

Lemma uninstall_package_true name s s' :
  run (uninstall_package E name) s = (Ok true, s') →
  installer_succeeded E name (trace s) (trace s').
Proof.
  rewrite run_uninstall_package.
  destruct (subprocess E _ (pip_uninstall name)) as [out|e] eqn:Hout; [|done].
  intros [= <-]. eexists (trace s), _, _, out.
  split; [done|]. split; [done|]. split; [by right; right|done].
Qed.

(** [package_options] returns [True], the answer that makes [main] say it
    refreshes, only when, during the call, an installer command for that
    very package (upgrade, install of a version, uninstall) was run and
    exited with status 0. *)
Theorem package_options_true_only_after_success (fuel : nat) (package_name : string)
    (s s' : state) :
  run (package_options E fuel package_name) s = (Ok true, s') →
  installer_succeeded E package_name (trace s) (trace s').
Proof.
  revert s. induction fuel as [|fuel IH]; intros s; [done|]. cbn [package_options].
  intros H. apply run_bind_true in H as (choice & s1 & Hshow & Hp1 & H);
    [|apply quiet_TerminalMenu_show].
  destruct choice as [i|]; [|done].
  apply run_bind_true in H as (c & s2 & Hc & Hp2 & H); [|apply quiet_list_getitem].
  case_bool_decide; [done|].
  apply run_bind_true in H as (ok & s3 & Hok & Hp3 & H).
  2:{ repeat case_bool_decide;
        [apply quiet_upgrade_package|apply quiet_downgrade_package
        |apply quiet_uninstall_package|done]. }
  eapply installer_succeeded_weaken; [by etrans|].
  destruct ok.
  - injection H as <-. repeat case_bool_decide.
    + by apply upgrade_package_true.
    + by eapply downgrade_package_true.
    + by apply uninstall_package_true.
    + done.
  - eapply installer_succeeded_weaken; [exact Hp3|]. by apply IH.
Qed.

(** Leaving the menu of a package by Back, or by dismissing it, returns
    [False] at once: the menu is the only thing that happened. And an action
    that fails does not leave the menu: it is shown again, with what is left
    of the bound on rounds. *)
Theorem package_options_Back_and_retry (fuel : nat) (package_name : string) (s : state) :
  (show E (trace s) ("Options for " +:+ package_name) options = None
   ∨ show E (trace s) ("Options for " +:+ package_name) options = Some 3 →
   run (package_options E (S fuel) package_name) s
   = (Ok false, log (EvMenu ("Options for " +:+ package_name) options) s))
  ∧ (∀ i action s1,
       (i, action) ∈ [(0, upgrade_package E package_name);
                      (1, downgrade_package E fuel package_name);
                      (2, uninstall_package E package_name)] →
       show E (trace s) ("Options for " +:+ package_name) options = Some i →
       run action (log (EvMenu ("Options for " +:+ package_name) options) s)
       = (Ok false, s1) →
       run (package_options E (S fuel) package_name) s
       = run (package_options E fuel package_name) s1).
Proof.
  split.
  - intros [H|H]; cbn [package_options]; rewrite run_bind, run_TerminalMenu_show, H; done.
  - intros i action s1 Hin Hshow Hact. cbn [package_options].
    rewrite run_bind, run_TerminalMenu_show, Hshow.
    repeat (apply elem_of_cons in Hin as [[= -> ->]|Hin]);
      [| | |by apply elem_of_nil in Hin];
      rewrite run_bind; cbn [list_getitem options lookup list_lookup run ret];
      rewrite bool_decide_false by done; rewrite run_bind;
      repeat (first [rewrite bool_decide_true by done|rewrite bool_decide_false by done]);
      by rewrite Hact.
Qed.

End Options.

Section Downgrade.
Variable E : environment.

Lemma run_print msg s : run (print msg) s = (Ok tt, log (EvPrint msg) s).
Proof. reflexivity. Qed.

Lemma run_input msg s : run (input msg) s = (Ok tt, log (EvInput msg) s).
Proof. reflexivity. Qed.

Lemma run_get_installed_packages s :
  run (get_installed_packages E) s
  = (Ok (distributions E (trace s)), log EvDistributions s).
Proof. reflexivity. Qed.

Lemma run_get_pypi_info_fail s name e :
  subprocess E (trace s) (pip_index_versions name) = inr e →
  run (get_pypi_info E name) s
  = (Ok None, log (EvSubprocess (pip_index_versions name)) s).
Proof.
  intros H. unfold get_pypi_info. rewrite run_try_except.
  unfold check_output. cbn. by rewrite H.
Qed.

(** A miss of the cache: what [get] returns when the entry is absent or
    expired, and the trace it leaves. *)
Lemma run_get_miss s name tr :
  (cache s !! name = None ∧ tr = [])
  ∨ (∃ e, cache s !! name = Some e ∧ expired (now E (trace s)) e ∧ tr = [EvNow]) →
  run (PackageCache_get E name) s = (Ok None, logs tr s).
Proof.
  intros [[Hn ->]|(e & He & Hex & ->)].
  - by rewrite (run_get_absent E _ _ Hn), logs_nil.
  - destruct (Hex) as (t0 & Ht0 & _).
    by rewrite (run_get_present E _ _ _ _ He Ht0), (expired_ltb _ _ _ Ht0 Hex).
Qed.

Lemma run_get_hit s name e :
  cache s !! name = Some e → fresh (now E (trace s)) e →
  run (PackageCache_get E name) s = (Ok (Some e), log EvNow s).
Proof.
  intros He Hfr. destruct (Hfr) as (t0 & Ht0 & _).
  by rewrite (run_get_present E _ _ _ _ He Ht0), (fresh_ltb _ _ _ Ht0 Hfr).
Qed.

(** [downgrade_package] with nothing to offer: when the cache has no entry
    for the package that is still fresh and the query of the registry fails,
    it returns [False] after the red message and the wait for Enter. The
    registry query is the only command run, no menu is shown, and this holds
    whatever the bound on rounds. *)
Theorem downgrade_package_no_versions (fuel : nat) (package_name : string)
    (s : state) (tr : list event) (e : CalledProcessError) :
  (cache s !! package_name = None ∧ tr = [])
  ∨ (∃ entry, cache s !! package_name = Some entry
              ∧ expired (now E (trace s ++ [fetching_versions package_name])) entry
              ∧ tr = [EvNow]) →
  subprocess E (trace s ++ fetching_versions package_name :: tr)
    (pip_index_versions package_name) = inr e →
  run (downgrade_package E fuel package_name) s
  = (Ok false,
     logs (fetching_versions package_name :: tr
           ++ [EvSubprocess (pip_index_versions package_name);
               EvPrint (Fore_RED +:+ "No versions available for " +:+ package_name
                        +:+ Style_RESET_ALL);
               press_enter]) s).
Proof.
  intros Hmiss Hfail. unfold downgrade_package.
  rewrite run_bind, run_print. fold (fetching_versions package_name).
  rewrite run_bind, (run_get_miss _ _ tr) by done.
  rewrite run_bind, (run_get_pypi_info_fail _ _ e).
  2:{ cbn. by rewrite <- app_assoc. }
  cbn. unfold logs, log. cbn. f_equal. f_equal.
  by rewrite <- !app_assoc.
Qed.

(** [downgrade_package] is cache first: with an entry for the package that
    is still fresh, the registry is not queried. The menu offers ["Back"]
    and then the cached versions, in their order, under a title naming the
    installed version; picking ["Back"] or dismissing the menu returns
    [False] with no command run at all. *)
Theorem downgrade_package_from_cache (fuel : nat) (package_name : string)
    (s : state) (entry : info) :
  cache s !! package_name = Some entry →
  fresh (now E (trace s ++ [fetching_versions package_name])) entry →
  let s1 := logs [fetching_versions package_name; EvNow; EvDistributions] s in
  let title :=
    downgrade_title package_name
      (distributions E (trace s ++ [fetching_versions package_name; EvNow])) in
  run (downgrade_package E fuel package_name) s
  = run (downgrade_loop E fuel package_name title ("Back" :: all_versions entry)) s1
  ∧ (show E (trace s1) title ("Back" :: all_versions entry) = None
     ∨ show E (trace s1) title ("Back" :: all_versions entry) = Some 0 →
     run (downgrade_package E (S fuel) package_name) s
     = (Ok false, log (EvMenu title ("Back" :: all_versions entry)) s1)).
Proof.
  intros He Hfr s1 title.
  assert (∀ n, run (downgrade_package E n package_name) s
               = run (downgrade_loop E n package_name title
                        ("Back" :: all_versions entry)) s1) as Hrun.
  { intros n. unfold downgrade_package.
    rewrite run_bind, run_print. fold (fetching_versions package_name).
    rewrite run_bind, (run_get_hit _ _ entry) by done.
    rewrite run_bind. cbn [run ret]. rewrite run_bind, run_get_installed_packages.
    cbn [trace log]. rewrite <- app_assoc. cbn [app].
    fold (downgrade_title package_name
            (distributions E (trace s ++ [fetching_versions package_name; EvNow]))).
    fold title. f_equal. unfold s1, logs, log. cbn. f_equal. by rewrite <- !app_assoc. }
  split; [apply Hrun|].
  intros Hshow. rewrite Hrun.
  cbn [downgrade_loop]. rewrite run_bind, run_TerminalMenu_show.
  destruct Hshow as [-> | ->]; [done|].
  rewrite run_bind. cbn [list_getitem lookup list_lookup run ret].
  by rewrite bool_decide_true.
Qed.

(** The version menu of [downgrade_package]: entry 0 is ["Back"], entry
    k+1 is the k-th version of the list. Picking a version runs
    [install_specific_version] for exactly that version; if it succeeds the
    loop ends with [True], if it fails the same menu is shown again. *)
Theorem downgrade_loop_installs_picked_version (fuel : nat)
    (package_name title : string) (versions : list string) (s : state)
    (k : nat) (v : string) :
  show E (trace s) title ("Back" :: versions) = Some (S k) →
  versions !! k = Some v →
  v ≠ "Back" →
  ∃ b s2,
    run (install_specific_version E package_name v)
        (log (EvMenu title ("Back" :: versions)) s) = (Ok b, s2)
    ∧ commands (drop (length (trace s)) (trace s2))
      = [pip_install_version package_name v]
    ∧ run (downgrade_loop E (S fuel) package_name title ("Back" :: versions)) s
      = if b then (Ok true, s2)
        else run (downgrade_loop E fuel package_name title ("Back" :: versions)) s2.
Proof.
  intros Hshow Hk Hv. cbn [downgrade_loop].
  rewrite run_bind, run_TerminalMenu_show, Hshow, run_bind.
  unfold list_getitem. change (("Back" :: versions) !! S k) with (versions !! k).
  rewrite Hk. cbn [run ret].
  rewrite bool_decide_false by done. rewrite run_bind.
  rewrite run_install_specific_version.
  destruct (subprocess E _ (pip_install_version package_name v)) as [out|e];
    eexists _, _; (split; [done|]); (split; [|done]);
    cbn [trace logs log]; rewrite <- app_assoc, drop_app_length; done.
Qed.

End Downgrade.


(* ===================================================================== *)
(** * The main menu, the start and the end of the program *)
(* ===================================================================== *)

Section MainMenu.
Variable E : environment.

Lemma no_space_Quit a b : a +:+ String " " b ≠ "Quit".
Proof.
  intros H.
  assert (Str.all (λ c, negb (bool_decide (c = " "%char))) (a +:+ String " " b) = true)
    as Hall by (by rewrite H).
  rewrite StrFacts.all_app in Hall. cbn in Hall.
  by rewrite andb_false_r in Hall.
Qed.

Lemma status_line_not_Quit w1 w2 p : status_line w1 w2 p ≠ "Quit".
Proof.
  destruct p as [[name installed] latest]. unfold status_line.
  destruct latest as [latest|]; [case_bool_decide|];
    rewrite ?StrFacts.app_assoc; apply no_space_Quit.
Qed.

Lemma format_menu_items_ret (package_info : list package_tuple) :
  package_info ≠ [] →
  ∃ w1 w2, format_menu_items package_info
           = ret (status_line w1 w2 <$> package_info).
Proof.
  intros Hne.
  destruct (py_max_ret ((λ '(name, _, _), String.length name) <$> package_info))
    as (w1 & Hw1 & _); [by destruct package_info|].
  destruct (py_max_ret ((λ '(_, installed, latest),
              Nat.max (String.length installed)
                      (String.length (py_or (py_str latest) "")))
             <$> package_info)) as (w2 & Hw2 & _); [by destruct package_info|].
  exists w1, w2. unfold format_menu_items, max_name_length, max_version_length.
  by rewrite Hw1, Hw2.
Qed.

Lemma run_clear_screen s : run clear_screen s = (Ok tt, log EvClear s).
Proof. reflexivity. Qed.

Lemma run_bind_Ok {A B} (m : prog A) (f : A → prog B) s b s' :
  run (m ≫= f) s = (Ok b, s') →
  ∃ a s1, run m s = (Ok a, s1) ∧ run (f a) s1 = (Ok b, s').
Proof.
  rewrite run_bind. destruct (run m s) as [[a|e|] s1]; [|done..]. eauto.
Qed.

Lemma run_display_packages_Ok s packages items s1 :
  run (display_packages E packages) s = (Ok items, s1) →
  ∃ w1 w2,
    Forall2 (λ p line, ∃ latest, line = status_line w1 w2 (Name p, version p, latest))
            packages items.
Proof.
  unfold display_packages. intros H.
  apply run_bind_Ok in H as ([] & s2 & _ & H).
  apply run_bind_Ok in H as (infos & s3 & Hagg & H).
  apply run_bind_Ok in H as (lines & s4 & Hfmt & H).
  apply run_bind_Ok in H as ([] & s5 & _ & H). injection H as <- _.
  apply aggregate_describes in Hagg.
  destruct (format_menu_items_ret infos) as (w1 & w2 & Hret).
  { intros ->. by vm_compute in Hfmt. }
  rewrite Hret in Hfmt. injection Hfmt as <- _.
  exists w1, w2. apply Forall2_fmap_r. eapply Forall2_impl; [exact Hagg|].
  intros p i [latest ->]. by exists latest.
Qed.

(** The lines of the main menu are the installed packages, in their order.
    Whenever a round of [main] gets as far as the main menu, whatever the
    state it began in and whatever the schedule of the pool: the entries
    are, for the i-th installed package, the line made of its name and its
    installed version (and of the latest version the aggregator found),
    and then ["Quit"]; no line of a package reads ["Quit"]. Dismissing the
    menu or picking its last entry ends [main] normally, after the parting
    message; picking line [i] opens the menu of options of the i-th
    installed package, and the loop goes on after it. *)
Theorem main_menu_lines_are_the_packages (s s1 : state)
    (packages : list Distribution) (entries : list string) :
  run (refresh E) s = (Ok (packages, entries), s1) →
  packages = distributions E (trace s ++ [EvClear])
  ∧ ∃ w1 w2 items,
      entries = items ++ ["Quit"]
      ∧ Forall2 (λ p line,
                   ∃ latest, line = status_line w1 w2 (Name p, version p, latest))
                packages items
      ∧ Forall (λ line, line ≠ "Quit") items
      ∧ (∀ fuel,
           show E (trace s1) "Python Package Manager" entries = None
           ∨ show E (trace s1) "Python Package Manager" entries
             = Some (length packages) →
           run (main_loop E (S fuel)) s
           = (Ok tt,
              logs [EvMenu "Python Package Manager" entries;
                    EvPrint "Exiting the package manager."] s1))
      ∧ (∀ fuel i p,
           show E (trace s1) "Python Package Manager" entries = Some i →
           packages !! i = Some p →
           run (main_loop E (S fuel)) s
           = run (package_options E fuel (Name p);; main_loop E fuel)
                 (log (EvMenu "Python Package Manager" entries) s1)).
Proof.
  intros Href. pose proof Href as H. unfold refresh in H.
  apply run_bind_Ok in H as ([] & s2 & Hclear & H).
  rewrite run_clear_screen in Hclear. injection Hclear as <-.
  apply run_bind_Ok in H as (pkgs & s3 & Hdist & H).
  rewrite run_get_installed_packages in Hdist. injection Hdist as <- <-.
  apply run_bind_Ok in H as (items & s4 & Hdisplay & H).
  injection H as <- <- <-. cbn [trace log].
  split; [done|].
  destruct (run_display_packages_Ok _ _ _ _ Hdisplay) as (w1 & w2 & Hlines).
  set (packages := distributions E (trace s ++ [EvClear])) in *.
  assert (length items = length packages) as Hlen
    by (symmetry; by eapply Forall2_length).
  assert (Forall (λ line, line ≠ "Quit") items) as Hnq.
  { eapply Forall2_Forall_r; [exact Hlines|]. apply Forall_forall.
    intros p _ line [latest ->]. apply status_line_not_Quit. }
  exists w1, w2, items. split; [done|]. split; [done|]. split; [done|]. split.
  - intros fuel Hshow. rewrite run_main_loop_refresh, run_bind, Href. cbn [fst snd].
    rewrite run_bind, run_TerminalMenu_show.
    assert (∀ t, run (print "Exiting the package manager.")
                     (log (EvMenu "Python Package Manager" t) s4)
                 = (Ok tt, logs [EvMenu "Python Package Manager" t;
                                 EvPrint "Exiting the package manager."] s4)) as Hbye.
    { intros t. rewrite run_print. f_equal. unfold logs, log. cbn. f_equal.
      by rewrite <- app_assoc. }
    destruct Hshow as [-> | ->]; [apply Hbye|].
    rewrite run_bind. unfold list_getitem at 1.
    rewrite <- Hlen, lookup_app_r, Nat.sub_diag by lia. cbn [lookup list_lookup run ret].
    rewrite bool_decide_true by done. apply Hbye.
  - intros fuel i p Hshow Hp. rewrite run_main_loop_refresh, run_bind, Href. cbn [fst snd].
    rewrite run_bind, run_TerminalMenu_show, Hshow.
    assert (i < length items) as Hi.
    { rewrite Hlen. by eapply lookup_lt_Some. }
    destruct (lookup_lt_is_Some_2 items i Hi) as [line Hline].
    rewrite run_bind. unfold list_getitem at 1.
    rewrite lookup_app_l, Hline by done. cbn [run ret].
    rewrite bool_decide_false.
    2:{ rewrite Forall_forall in Hnq. apply Hnq. by eapply list_elem_of_lookup_2. }
    rewrite run_bind. unfold list_getitem. rewrite Hp. cbn [run ret]. done.
Qed.

End MainMenu.

Section Startup.
Variable E : environment.

(** Two ways [main] dies at its start. A cache file that is not JSON makes
    [PackageManager()] raise the decoding error before anything is shown,
    and nothing catches it. With a readable or missing cache file and no
    installed package at all, the first round raises [ValueError] once
    "Fetching package information..." is printed: no menu is ever shown. *)
Theorem main_dies_at_start (fuel : nat) (s : state) :
  (cache_file s = FileNotJson → run (main E fuel) s = (Raise JSONDecodeError, s))
  ∧ (cache_file s = FileMissing ∨ (∃ m, cache_file s = FileJson m) →
     distributions E (trace s ++ [EvClear]) = [] →
     ∃ s', run (main E (S fuel)) s = (Raise ValueError, s')
           ∧ trace s' = trace s ++ [EvClear; EvDistributions;
                                    EvPrint "Fetching package information..."]).
Proof.
  split.
  - intros Hf. unfold main, PackageCache_init, PackageCache_load.
    rewrite !run_bind. cbn. by rewrite Hf.
  - intros Hf Hd. unfold main. rewrite run_bind.
    assert (∃ m, run PackageCache_init s = (Ok tt, with_cache m s)) as [m ->].
    { unfold PackageCache_init, PackageCache_load. rewrite !run_bind. cbn.
      destruct Hf as [-> | [m ->]]; eauto. }
    cbn [main_loop]. rewrite run_bind, run_clear_screen, run_bind.
    rewrite run_get_installed_packages. cbn [trace log with_cache]. rewrite Hd.
    rewrite run_bind, run_display_packages_nil. eexists. split; [done|].
    cbn. by rewrite <- !app_assoc.
Qed.

End Startup.

Section Parting.
Variable E : environment.

Lemma main_loop_parting fuel s s' :
  run (main_loop E fuel) s = (Ok tt, s') →
  ∃ tr items,
    trace s' = tr ++ [EvMenu "Python Package Manager" (items ++ ["Quit"]);
                      EvPrint "Exiting the package manager."].
Proof.
  revert s. induction fuel as [|fuel IH]; intros s; [done|].
  rewrite run_main_loop_refresh. intros H.
  apply run_bind_Ok in H as ([packages menu_items] & s1 & Href & H).
  assert (∃ items, menu_items = items ++ ["Quit"]) as [items ->].
  { unfold refresh in Href.
    apply run_bind_Ok in Href as (? & ? & _ & Href).
    apply run_bind_Ok in Href as (? & ? & _ & Href).
    apply run_bind_Ok in Href as (items & ? & _ & Href).
    cbn in Href. injection Href as _ <- _. by exists items. }
  cbn [fst snd] in H.
  apply run_bind_Ok in H as (choice & s2 & Hshow & H).
  rewrite run_TerminalMenu_show in Hshow. injection Hshow as <- <-.
  assert (∀ s0, run (print "Exiting the package manager.")
                  (log (EvMenu "Python Package Manager" (items ++ ["Quit"])) s1)
                = (Ok tt, s0) →
           ∃ tr items0,
             trace s0 = tr ++ [EvMenu "Python Package Manager" (items0 ++ ["Quit"]);
                               EvPrint "Exiting the package manager."]) as Hbye.
  { intros s0 [= <-]. exists (trace s1), items. cbn. by rewrite <- app_assoc. }
  destruct (show E (trace s1) _ _) as [i|]; [|by apply Hbye].
  apply run_bind_Ok in H as (item & s3 & Hitem & H).
  assert (s3 = log (EvMenu "Python Package Manager" (items ++ ["Quit"])) s1) as ->.
  { unfold list_getitem in Hitem. destruct (_ !! i); [|done]. by injection Hitem. }
  case_bool_decide; [by apply Hbye|].
  apply run_bind_Ok in H as (package & s4 & _ & H).
  apply run_bind_Ok in H as (refreshed & s5 & _ & H).
  by eapply IH.
Qed.

(** [main] ends normally in one way only: the last thing shown is the main
    menu, whose last entry is ["Quit"], and the last thing printed is the
    parting message. Whatever happened before (any number of rounds and of
    actions), a run that returns has just left that menu through ["Quit"] or
    by dismissing it. *)
Theorem main_returns_only_after_parting_message (fuel : nat) (s s' : state) :
  run (main E fuel) s = (Ok tt, s') →
  ∃ tr items,
    trace s' = tr ++ [EvMenu "Python Package Manager" (items ++ ["Quit"]);
                      EvPrint "Exiting the package manager."].
Proof.
  unfold main. intros H. apply run_bind_Ok in H as ([] & s1 & _ & H).
  by eapply main_loop_parting.
Qed.

End Parting.


(* ===================================================================== *)
(** * Edges of the cache *)
(* ===================================================================== *)

Section CacheEdges.
Variable E : environment.

(** A lookup that fails is not remembered. When the cache has no entry for
    the package, or one that is expired, and the query of the registry
    fails, [get_package_info] returns the tuple with [None] as the latest
    version; the cache in memory and the cache file are as before (an
    expired entry is still there), and the only traces are the reading of
    the clock, if the entry was there, and the one query. *)
Theorem get_package_info_failure_not_cached (package : Distribution) (s : state)
    (tr : list event) (e : CalledProcessError) :
  (cache s !! Name package = None ∧ tr = [])
  ∨ (∃ entry, cache s !! Name package = Some entry
              ∧ expired (now E (trace s)) entry ∧ tr = [EvNow]) →
  subprocess E (trace s ++ tr) (pip_index_versions (Name package)) = inr e →
  ∃ s', run (get_package_info E package) s
        = (Ok (Name package, version package, None), s')
        ∧ cache s' = cache s
        ∧ cache_file s' = cache_file s
        ∧ trace s' = trace s ++ tr ++ [EvSubprocess (pip_index_versions (Name package))].
Proof.
  intros Hmiss Hfail. unfold get_package_info. cbv zeta.
  rewrite run_bind, (run_get_miss E _ _ tr Hmiss), run_bind, run_bind.
  rewrite (run_get_pypi_info_fail E _ _ e) by done. cbn [run ret].
  eexists. split; [done|]. cbn. by rewrite <- app_assoc.
Qed.

(** An entry of the cache without its timestamp makes [PackageCache.get]
    raise [KeyError] for the missing key, before the clock is read. Nothing
    catches it: [get_package_info] ends with the same exception and the
    state untouched, and [downgrade_package] with the same exception after
    its first message. *)
Theorem PackageCache_get_unstamped_entry (package : Distribution) (s : state)
    (entry : info) :
  cache s !! Name package = Some entry →
  timestamp entry = None →
  run (PackageCache_get E (Name package)) s = (Raise (KeyError "timestamp"), s)
  ∧ run (get_package_info E package) s = (Raise (KeyError "timestamp"), s)
  ∧ ∀ fuel, run (downgrade_package E fuel (Name package)) s
            = (Raise (KeyError "timestamp"),
               log (fetching_versions (Name package)) s).
Proof.
  intros He Ht.
  assert (∀ s0, cache s0 = cache s →
            run (PackageCache_get E (Name package)) s0
            = (Raise (KeyError "timestamp"), s0)) as Hget.
  { intros s0 Hc. unfold PackageCache_get.
    cbn. rewrite Hc, He. cbn. rewrite Hc, He. cbn. by rewrite Ht. }
  split; [by apply Hget|]. split.
  - unfold get_package_info. cbv zeta. by rewrite run_bind, Hget.
  - intros fuel. unfold downgrade_package.
    rewrite run_bind, run_print, run_bind, Hget by done. done.
Qed.

End CacheEdges.


Section AggregatorState.
Variable E : environment.
Hypothesis Hclock : ∀ tr, Datetime.valid (now E tr) = true.

(** What the threads of the aggregator do to the cache, at every moment of
    the batch: whatever steps the threads have taken so far, in whatever
    order, and whether or not the batch will end in an exception. Started
    on a cache whose entries carry readable timestamps (and a clock showing
    valid datetimes), the cache is such a cache still; every name that had
    an entry still has one; and the entry of a package whose queries of the
    registry always fail, or its absence, is what it was: a failed lookup
    is never cached. *)
Theorem aggregate_cache_only_grows (sched : list nat) (s : state)
    (packages : list Distribution) :
  cache_wf (cache s) →
  let s' := (pool_run sched (get_package_info E <$> packages) s).2 in
  cache_wf (cache s')
  ∧ (∀ n, is_Some (cache s !! n) → is_Some (cache s' !! n))
  ∧ (∀ n, always_fails E n → cache s' !! n = cache s !! n).
Proof using Hclock.
  intros Hwf s'.
  assert (pool_ok (guar E False) (worker_post E False (cache s) <$> packages)
            (get_package_info E <$> packages) s) as Hok
    by (by apply pool_ok_workers).
  destruct (pool_run_keeps (guar E False) sched _ _ s
              (λ s', inv E (cache s) s'
                     ∧ ∀ n, is_Some (cache s !! n) → is_Some (cache s' !! n))
              Hok) as [_ [[H1 H2] H3]]; [|done|done].
  intros s1 s2 [Hi Hg] HG. split; [by eapply stable_inv|].
  destruct HG as (_ & G2 & _). eauto.
Qed.

End AggregatorState.

Section Unstamped.
Variable E : environment.
Variable m : string.

Lemma stable_kept (entry : info) :
  stable (keeps m) (λ s, cache s !! m = Some entry).
Proof. intros s s' H HG. unfold keeps in HG. by rewrite HG. Qed.

Lemma get_package_info_unstamped p (entry : info) :
  Name p = m → timestamp entry = None →
  safe (keeps m) (λ s, cache s !! m = Some entry) (get_package_info E p)
       (λ r _, r = Raise (KeyError "timestamp")).
Proof.
  intros Hn Ht. unfold get_package_info, PackageCache_get. cbv zeta. rewrite Hn. cbn.
  intros s He. split; [done|].
  exists (λ s, cache s !! m = Some entry). split; [apply stable_kept|]. split; [done|].
  rewrite He. rewrite bool_decide_true by eauto. cbn.
  intros s1 He1. split; [done|].
  exists (λ s, cache s !! m = Some entry). split; [apply stable_kept|]. split; [done|].
  rewrite He1. cbn. rewrite Ht. cbn. done.
Qed.

Lemma collect_raises {A} (rs : list (result A)) :
  Forall (λ r, r ≠ OutOfFuel) rs →
  Exists (λ r, ∃ e, r = Raise e) rs →
  ∃ e, collect rs = Raise e.
Proof.
  induction 1 as [|r rs Hr Hrs IH]; intros Hex; [by apply Exists_nil in Hex|].
  destruct r as [a|e|]; cbn; [|by eauto|done].
  apply Exists_cons in Hex as [[e He]|Hex]; [done|].
  destruct (IH Hex) as [e ->]. eauto.
Qed.

Lemma aggregate_unstamped (s : state) (packages : list Distribution)
    (p : Distribution) (entry : info) :
  Name p = m → p ∈ packages → cache s !! m = Some entry → timestamp entry = None →
  ∃ e s', run (aggregate E packages) s = (Raise e, s').
Proof.
  intros Hn Hp He Ht. unfold aggregate. rewrite run_executor_map.
  set (Q := λ (q : Distribution) (r : result package_tuple) (_ : state),
              r ≠ OutOfFuel ∧ (Name q = m → ∃ e, r = Raise e)).
  assert (pool_ok (keeps m) (Q <$> packages)
            (get_package_info E <$> packages) s) as Hok.
  { clear Hp. induction packages as [|q qs IH]; constructor; [|done].
    destruct (decide (Name q = m)) as [Hq|Hq].
    - exists (λ s, cache s !! m = Some entry). split; [apply stable_kept|]. split; [done|].
      eapply safe_post; [|by apply get_package_info_unstamped].
      intros r s0 ->. split; [done|]. eauto.
    - exists (λ _, True). split; [done|]. split; [done|].
      eapply safe_post.
      2:{ apply within_safe. apply (within_get_package_info E (keeps m) (Name q)); [|done].
          intros s1 s2 H. apply H. by intros ->. }
      intros r s0 Hr. split; [by destruct r|done]. }
  pose proof (pool_exec_ok (keeps m) (schedule E (trace s)) _ _ s Hok) as H.
  destruct (pool_exec _ _ s) as [rs s'] eqn:Hexec. cbn [fst snd] in *.
  apply Forall2_fmap_l in H.
  destruct (collect_raises rs) as [e Hc].
  - eapply Forall2_Forall_r; [exact H|]. apply Forall_forall.
    intros q _ r (s1 & Hr & _). exact Hr.
  - apply list_elem_of_lookup_1 in Hp as [i Hi].
    destruct (Forall2_lookup_l _ _ _ _ _ H Hi) as (r & Hri & s1 & _ & Hr).
    apply Exists_exists. exists r. split; [by eapply list_elem_of_lookup_2|]. by apply Hr.
  - rewrite Hc. eauto.
Qed.

End Unstamped.

Section UnstampedMain.
Variable E : environment.

(** One entry without its timestamp in the cache file stops the program.
    [load] takes the file as it is; if it holds, for some installed
    package, an entry that lacks its timestamp, then whatever the schedule
    of the pool the first round of [main] ends with an exception raised out
    of the aggregator, in [display_packages]: the main menu is not
    reached. *)
Theorem main_dies_on_unstamped_entry (fuel : nat) (s : state)
    (file_cache : gmap string info) (p : Distribution) (entry : info) :
  cache_file s = FileJson file_cache →
  file_cache !! Name p = Some entry →
  timestamp entry = None →
  p ∈ distributions E (trace s ++ [EvClear]) →
  ∃ e s',
    run (PackageCache_init;; refresh E) s = (Raise e, s')
    ∧ run (main E (S fuel)) s = (Raise e, s').
Proof.
  intros Hf He Ht Hp.
  assert (run PackageCache_init s = (Ok tt, with_cache file_cache s)) as Hinit.
  { unfold PackageCache_init, PackageCache_load. rewrite !run_bind. cbn. by rewrite Hf. }
  destruct (aggregate_unstamped E (Name p)
              (log (EvPrint "Fetching package information...")
                 (log EvDistributions (log EvClear (with_cache file_cache s))))
              (distributions E (trace s ++ [EvClear])) p entry)
    as (e & s' & Hrun); [done..|].
  assert (run (PackageCache_init;; refresh E) s = (Raise e, s')) as Href.
  { rewrite run_bind, Hinit. unfold refresh.
    rewrite run_bind, run_clear_screen, run_bind, run_get_installed_packages.
    cbn [trace log with_cache]. unfold display_packages.
    by rewrite run_bind, run_bind, run_print, run_bind, Hrun. }
  exists e, s'. split; [done|].
  unfold main. rewrite run_bind, Hinit, run_main_loop_refresh, run_bind.
  rewrite run_bind, Hinit in Href. by rewrite Href.
Qed.

End UnstampedMain.

Section AllFresh.
Variable E : environment.

Lemma commands_app evs evs' : commands (evs ++ evs') = commands evs ++ commands evs'.
Proof.
  induction evs as [|ev evs IH]; [done|]. destruct ev; cbn; by rewrite IH.
Qed.

Lemma reads_only_refl s : reads_only s s.
Proof. done. Qed.

Lemma reads_only_now s : reads_only s (log EvNow s).
Proof.
  split; [done|]. cbn. by rewrite commands_app, app_nil_r.
Qed.

Lemma stable_cache_is (c : gmap string info) :
  stable reads_only (λ s, cache s = c).
Proof.
  intros s s' H [Hst _]. unfold store in Hst. injection Hst as Hc _ _ _. congruence.
Qed.

Lemma get_package_info_fresh (c : gmap string info) p entry :
  c !! Name p = Some entry →
  (∀ tr, fresh (now E tr) entry) →
  safe reads_only (λ s, cache s = c) (get_package_info E p)
       (λ r _, r = Ok (Name p, version p, Some (latest_version entry))).
Proof.
  intros He Hfr. destruct (Hfr []) as (t0 & Ht0 & _).
  assert (∀ tr, (Datetime.sub (now E tr) t0 <? CACHE_EXPIRY)%Z = true) as Hlt.
  { intros tr. by apply (fresh_ltb _ entry). }
  unfold get_package_info, PackageCache_get. cbv zeta. cbn.
  intros s Hs. split; [apply reads_only_refl|].
  exists (λ s, cache s = c). split; [apply stable_cache_is|]. split; [done|].
  rewrite Hs, He. rewrite bool_decide_true by eauto. cbn.
  intros s1 Hs1. split; [apply reads_only_refl|].
  exists (λ s, cache s = c). split; [apply stable_cache_is|]. split; [done|].
  rewrite Hs1, He. cbn.
  unfold cached_time in Ht0. destruct (timestamp entry) as [ts|]; [|done].
  cbn in Ht0. cbn. rewrite Ht0. cbn.
  intros s2 Hs2. split; [apply reads_only_now|].
  exists (λ s, cache s = c). split; [apply stable_cache_is|]. split; [done|].
  rewrite Hlt.
  cbn. intros s3 Hs3. split; [apply reads_only_refl|].
  exists (λ s, cache s = c). split; [apply stable_cache_is|]. split; [done|].
  rewrite Hs3, He. cbn. done.
Qed.

(** The pay-off of the cache, for every schedule of the pool: when every
    package of the list has an entry that is within its time to live
    whenever the clock is read, the aggregator answers from the cache. Each
    tuple carries the latest version of its package's entry, no subprocess
    is run, and the cache is left as it is, in memory and on disk. *)
Theorem aggregate_all_fresh_runs_nothing (s : state) (packages : list Distribution) :
  (∀ p, p ∈ packages →
        ∃ entry, cache s !! Name p = Some entry ∧ ∀ tr, fresh (now E tr) entry) →
  ∃ infos s',
    run (aggregate E packages) s = (Ok infos, s')
    ∧ Forall2 (λ p i, ∃ entry, cache s !! Name p = Some entry
                               ∧ i = (Name p, version p, Some (latest_version entry)))
              packages infos
    ∧ cache s' = cache s
    ∧ cache_file s' = cache_file s
    ∧ commands (trace s') = commands (trace s).
Proof.
  intros Hall. unfold aggregate. rewrite run_executor_map.
  set (Q := λ (p : Distribution) (r : result package_tuple) (_ : state),
              ∃ entry, cache s !! Name p = Some entry
                       ∧ r = Ok (Name p, version p, Some (latest_version entry))).
  assert (pool_ok reads_only (Q <$> packages) (get_package_info E <$> packages) s) as Hok.
  { induction packages as [|q qs IH]; constructor.
    - destruct (Hall q) as (entry & He & Hfr); [by left|].
      exists (λ s', cache s' = cache s). split; [apply stable_cache_is|]. split; [done|].
      eapply safe_post; [|by apply (get_package_info_fresh (cache s) q entry)].
      intros r s0 ->. by exists entry.
    - apply IH. intros p Hp. apply Hall. by right. }
  pose proof (pool_exec_ok reads_only (schedule E (trace s)) _ _ s Hok) as H.
  pose proof (pool_exec_keeps reads_only (schedule E (trace s)) _ _ s
                (λ s', reads_only s s') Hok) as HX.
  destruct (pool_exec _ _ s) as [rs s'] eqn:Hexec. cbn [fst snd] in *.
  apply Forall2_fmap_l in H.
  destruct (collect_Forall2
              (λ p i, ∃ entry, cache s !! Name p = Some entry
                               ∧ i = (Name p, version p, Some (latest_version entry)))
              packages rs) as (infos & Hc & Hinfos).
  { eapply Forall2_impl; [exact H|]. intros p r (s1 & entry & He & ->).
    eexists. split; [done|]. by exists entry. }
  destruct HX as [Hst Hcmd].
  { intros s1 s2 [H1 H2] [H3 H4]. split; congruence. }
  { done. }
  exists infos, s'. rewrite Hc. unfold store in Hst. injection Hst as -> -> _ _. done.
Qed.

End AllFresh.


(* ===================================================================== *)
(** * The columns of the main menu *)
(* ===================================================================== *)

Section Alignment.

Lemma length_repeat_space n : String.length (Str.repeat_space n) = n.
Proof. induction n as [|n IH]; [done|]. cbn. by rewrite IH. Qed.

Lemma length_ljust w s :
  String.length s ≤ w → String.length (Str.ljust w s) = w.
Proof.
  intros H. unfold Str.ljust. rewrite StrFacts.length_app, length_repeat_space. lia.
Qed.

Lemma length_rjust w s :
  String.length s ≤ w → String.length (Str.rjust w s) = w.
Proof.
  intros H. unfold Str.rjust. rewrite StrFacts.length_app, length_repeat_space. lia.
Qed.

Lemma foldl_max_elem (l : list nat) (x : nat) : foldl Nat.max x l ∈ x :: l.
Proof.
  revert x. induction l as [|z l IH]; intros x; cbn; [by left|].
  specialize (IH (x `max` z)). apply elem_of_cons in IH as [->|IH].
  - destruct (Nat.max_spec x z) as [[_ ->]|[_ ->]]; [right; left|left].
  - right. by right.
Qed.

Lemma py_max_elem (l : list nat) m : py_max l = ret m → m ∈ l.
Proof.
  destruct l as [|x l]; [done|]. intros [= <-]. apply foldl_max_elem.
Qed.

(** The columns of the main menu. For a list of tuples that is not empty,
    every line starts with the package name padded on the right to the
    width of the longest name, a space, and the installed version padded on
    the left to the width of the version column: the installed versions end
    in the same column in all the lines, and some name fills its column.
    What follows is nothing, or [" → "] and the latest version padded on the
    left to the same width; the arrow is there exactly when the latest
    version is known, is not empty and differs from the installed one. *)
Theorem format_menu_items_aligned (package_info : list package_tuple) :
  package_info ≠ [] →
  ∃ w1 w2 lines,
    format_menu_items package_info = ret lines
    ∧ (∃ p, p ∈ package_info ∧ String.length p.1.1 = w1)
    ∧ Forall2 (λ (p : package_tuple) line,
         ∃ rest,
           line = Str.ljust w1 p.1.1 +:+ " " +:+ Str.rjust w2 p.1.2 +:+ rest
           ∧ String.length (Str.ljust w1 p.1.1) = w1
           ∧ String.length (Str.rjust w2 p.1.2) = w2
           ∧ ((rest = "" ∧ (p.2 = None ∨ p.2 = Some "" ∨ p.2 = Some p.1.2))
              ∨ (∃ latest, p.2 = Some latest ∧ latest ≠ "" ∧ latest ≠ p.1.2
                           ∧ rest = " → " +:+ Str.rjust w2 latest
                           ∧ String.length (Str.rjust w2 latest) = w2)))
         package_info lines.
Proof.
  intros Hne.
  destruct (py_max_ret ((λ '(name, _, _), String.length name) <$> package_info))
    as (w1 & Hw1 & Hb1); [by destruct package_info|].
  destruct (py_max_ret ((λ '(_, installed, latest),
              Nat.max (String.length installed)
                      (String.length (py_or (py_str latest) "")))
             <$> package_info)) as (w2 & Hw2 & Hb2); [by destruct package_info|].
  exists w1, w2, (status_line w1 w2 <$> package_info). split.
  { unfold format_menu_items, max_name_length, max_version_length.
    by rewrite Hw1, Hw2. }
  split.
  { apply py_max_elem, list_elem_of_fmap in Hw1 as ([[name installed] latest] & -> & Hp).
    by eexists (_, _, _). }
  apply Forall2_fmap_r, Forall_Forall2_diag, Forall_forall.
  intros [[name installed] latest] Hp. unfold compose. cbn [fst snd].
  assert (String.length name ≤ w1) as Hn.
  { apply Hb1, list_elem_of_fmap. by exists (name, installed, latest). }
  assert (String.length installed `max` String.length (py_or (py_str latest) "") ≤ w2)
    as Hv.
  { apply Hb2, list_elem_of_fmap. by exists (name, installed, latest). }
  unfold status_line. cbv beta iota zeta.
  destruct latest as [latest|]; [case_bool_decide as Hl|].
  - exists (" → " +:+ Str.rjust w2 latest).
    split; [done|].
    split; [by apply length_ljust|]. split; [apply length_rjust; lia|].
    right. exists latest. destruct Hl as [Hl1 Hl2].
    split; [done|]. split; [done|]. split; [done|]. split; [done|].
    apply length_rjust. cbn in Hv. destruct latest; [done|]. cbn in *. lia.
  - exists "". split; [by rewrite StrFacts.app_nil_r|].
    split; [by apply length_ljust|]. split; [apply length_rjust; lia|].
    left. split; [done|].
    destruct (decide (latest = "")) as [->|H1]; [by right; left|].
    destruct (decide (latest = installed)) as [->|H2]; [by right; right|].
    by destruct Hl.
  - exists "". split; [by rewrite StrFacts.app_nil_r|].
    split; [by apply length_ljust|]. split; [apply length_rjust; lia|].
    left. by split; [|left].
Qed.

End Alignment.


(* ===================================================================== *)
(** * The theorems above at sample inputs *)
(* ===================================================================== *)

Section MoreWitnesses.
Import Sample Scenario.

Lemma package_options_true_only_after_success_witness :
  installer_succeeded (world [] [Some 0] []) "requests" (trace boot)
    (trace (run (package_options (world [] [Some 0] []) 1 "requests") boot).2).
Proof.
  apply (package_options_true_only_after_success (world [] [Some 0] []) 1 "requests" boot).
  vm_compute. reflexivity.
Defined.

Lemma downgrade_package_no_versions_witness :
  run (downgrade_package (world [] [] []) 0 "ghost") boot
  = (Ok false,
     logs (fetching_versions "ghost" :: []
           ++ [EvSubprocess (pip_index_versions "ghost");
               EvPrint (Fore_RED +:+ "No versions available for " +:+ "ghost"
                        +:+ Style_RESET_ALL);
               press_enter]) boot).
Proof.
  apply (downgrade_package_no_versions (world [] [] []) 0 "ghost" boot [] exit_status_1).
  - left. split; reflexivity.
  - reflexivity.
Defined.

Lemma downgrade_package_from_cache_witness :
  run (downgrade_package (world [noon; at_time 12 30] [] []) 1 "foo") foo_cached
  = (Ok false,
     log (EvMenu (downgrade_title "foo" [requests; ghost; six]) ["Back"; "2.0"; "1.9"])
       (logs [fetching_versions "foo"; EvNow; EvDistributions] foo_cached)).
Proof.
  refine (proj2 (downgrade_package_from_cache (world [noon; at_time 12 30] [] []) 0
                   "foo" foo_cached (stamp noon foo_info) _ _) _).
  - vm_compute. reflexivity.
  - exists noon. split; vm_compute; reflexivity.
  - left. reflexivity.
Defined.

Lemma downgrade_loop_installs_picked_version_witness :
  ∃ b s2,
    run (install_specific_version (world [] [Some 1] []) "foo" "2.0")
        (log (EvMenu "Select" ("Back" :: ["2.0"; "1.9"])) boot) = (Ok b, s2)
    ∧ commands (drop (length (trace boot)) (trace s2))
      = [pip_install_version "foo" "2.0"]
    ∧ run (downgrade_loop (world [] [Some 1] []) 1 "foo" "Select"
             ("Back" :: ["2.0"; "1.9"])) boot
      = if b then (Ok true, s2)
        else run (downgrade_loop (world [] [Some 1] []) 0 "foo" "Select"
                    ("Back" :: ["2.0"; "1.9"])) s2.
Proof.
  apply (downgrade_loop_installs_picked_version (world [] [Some 1] []) 0 "foo" "Select"
           ["2.0"; "1.9"] boot 0 "2.0").
  - reflexivity.
  - reflexivity.
  - discriminate.
Defined.

Lemma main_menu_lines_are_the_packages_witness :
  ∃ entries s1,
    run (refresh (world [] [] [])) boot = (Ok ([requests; ghost; six], entries), s1)
    ∧ ∃ w1 w2 items,
        entries = items ++ ["Quit"]
        ∧ Forall2 (λ p line,
                     ∃ latest, line = status_line w1 w2 (Name p, version p, latest))
                  [requests; ghost; six] items
        ∧ run (main_loop (world [] [] []) 1) boot
          = (Ok tt,
             logs [EvMenu "Python Package Manager" entries;
                   EvPrint "Exiting the package manager."] s1).
Proof.
  assert (∃ entries s1,
            run (refresh (world [] [] [])) boot
            = (Ok ([requests; ghost; six], entries), s1)) as (entries & s1 & Href).
  { vm_compute. eexists _, _. reflexivity. }
  exists entries, s1. split; [exact Href|].
  destruct (main_menu_lines_are_the_packages (world [] [] []) boot s1
              [requests; ghost; six] entries Href)
    as (_ & w1 & w2 & items & Hentries & Hlines & _ & Hquit & _).
  exists w1, w2, items. split; [exact Hentries|]. split; [exact Hlines|].
  apply (Hquit 0). left. reflexivity.
Defined.

Lemma main_dies_at_start_witness :
  run (main (registry_prints "") 0) not_json = (Raise JSONDecodeError, not_json)
  ∧ ∃ s', run (main (registry_prints "") 1) boot = (Raise ValueError, s')
          ∧ trace s' = trace boot ++ [EvClear; EvDistributions;
                                      EvPrint "Fetching package information..."].
Proof.
  split.
  - apply (proj1 (main_dies_at_start (registry_prints "") 0 not_json)). reflexivity.
  - apply (proj2 (main_dies_at_start (registry_prints "") 0 boot)).
    + left. reflexivity.
    + reflexivity.
Defined.

Lemma get_package_info_failure_not_cached_witness :
  ∃ s', run (get_package_info (world [] [] []) ghost) boot
        = (Ok (Name ghost, version ghost, None), s')
        ∧ cache s' = cache boot
        ∧ cache_file s' = cache_file boot
        ∧ trace s' = trace boot ++ [] ++ [EvSubprocess (pip_index_versions (Name ghost))].
Proof.
  apply (get_package_info_failure_not_cached (world [] [] []) ghost boot []
           exit_status_1).
  - left. split; reflexivity.
  - reflexivity.
Defined.

Lemma PackageCache_get_unstamped_entry_witness :
  run (PackageCache_get (world [] [] []) (Name requests)) unstamped
  = (Raise (KeyError "timestamp"), unstamped)
  ∧ run (get_package_info (world [] [] []) requests) unstamped
    = (Raise (KeyError "timestamp"), unstamped)
  ∧ ∀ fuel, run (downgrade_package (world [] [] []) fuel (Name requests)) unstamped
            = (Raise (KeyError "timestamp"),
               log (fetching_versions (Name requests)) unstamped).
Proof.
  apply (PackageCache_get_unstamped_entry (world [] [] []) requests unstamped foo_info).
  - vm_compute. reflexivity.
  - reflexivity.
Defined.

Lemma aggregate_cache_only_grows_witness :
  cache_wf (cache (pool_run [0; 1; 2; 2; 1; 0; 0; 0]
                     (get_package_info (world [] [] []) <$> [requests; ghost; six])
                     warmed).2)
  ∧ (∀ n, is_Some (cache warmed !! n) →
          is_Some (cache (pool_run [0; 1; 2; 2; 1; 0; 0; 0]
                            (get_package_info (world [] [] []) <$> [requests; ghost; six])
                            warmed).2 !! n))
  ∧ (∀ n, always_fails (world [] [] []) n →
          cache (pool_run [0; 1; 2; 2; 1; 0; 0; 0]
                   (get_package_info (world [] [] []) <$> [requests; ghost; six])
                   warmed).2 !! n
          = cache warmed !! n).
Proof.
  apply (aggregate_cache_only_grows (world [] [] [])
           (world_clock_valid [] [] _ ltac:(constructor))
           [0; 1; 2; 2; 1; 0; 0; 0] warmed [requests; ghost; six]).
  apply warmed_wf.
Defined.

Lemma main_dies_on_unstamped_entry_witness :
  ∃ e s',
    run (PackageCache_init;; refresh (world [] [] [])) unstamped_on_disk = (Raise e, s')
    ∧ run (main (world [] [] []) 1) unstamped_on_disk = (Raise e, s').
Proof.
  apply (main_dies_on_unstamped_entry (world [] [] []) 0 unstamped_on_disk
           unstamped_cache requests foo_info).
  - reflexivity.
  - vm_compute. reflexivity.
  - reflexivity.
  - apply list_elem_of_here.
Defined.

Lemma format_menu_items_aligned_witness :
  ∃ w1 w2 lines,
    format_menu_items [("requests", "2.28.0", Some "2.31.0"); ("ghost", "0.1", None)]
    = ret lines
    ∧ (∃ p, p ∈ [("requests", "2.28.0", Some "2.31.0"); ("ghost", "0.1", None)]
            ∧ String.length p.1.1 = w1)
    ∧ Forall2 (λ (p : package_tuple) line,
         ∃ rest,
           line = Str.ljust w1 p.1.1 +:+ " " +:+ Str.rjust w2 p.1.2 +:+ rest
           ∧ String.length (Str.ljust w1 p.1.1) = w1
           ∧ String.length (Str.rjust w2 p.1.2) = w2
           ∧ ((rest = "" ∧ (p.2 = None ∨ p.2 = Some "" ∨ p.2 = Some p.1.2))
              ∨ (∃ latest, p.2 = Some latest ∧ latest ≠ "" ∧ latest ≠ p.1.2
                           ∧ rest = " → " +:+ Str.rjust w2 latest
                           ∧ String.length (Str.rjust w2 latest) = w2)))
         [("requests", "2.28.0", Some "2.31.0"); ("ghost", "0.1", None)] lines.
Proof.
  apply (format_menu_items_aligned
           [("requests", "2.28.0", Some "2.31.0"); ("ghost", "0.1", None)]).
  discriminate.
Defined.

Lemma aggregate_all_fresh_runs_nothing_witness :
  ∃ infos s',
    run (aggregate (world [] [] [0; 0; 0]) [foo; foo]) foo_cached = (Ok infos, s')
    ∧ Forall2 (λ p i, ∃ entry, cache foo_cached !! Name p = Some entry
                               ∧ i = (Name p, version p, Some (latest_version entry)))
              [foo; foo] infos
    ∧ cache s' = cache foo_cached
    ∧ cache_file s' = cache_file foo_cached
    ∧ commands (trace s') = commands (trace foo_cached).
Proof.
  apply (aggregate_all_fresh_runs_nothing (world [] [] [0; 0; 0]) foo_cached [foo; foo]).
  intros p Hp. exists (stamp noon foo_info).
  assert (p = foo) as ->.
  { repeat (apply elem_of_cons in Hp as [Hp|Hp]; [exact Hp|]). by apply elem_of_nil in Hp. }
  split; [vm_compute; reflexivity|].
  intros tr. exists noon. split; vm_compute; reflexivity.
Defined.

Lemma main_returns_only_after_parting_message_witness :
  ∃ tr items,
    trace (run (main (world [] [] []) 1) boot).2
    = tr ++ [EvMenu "Python Package Manager" (items ++ ["Quit"]);
             EvPrint "Exiting the package manager."].
Proof.
  apply (main_returns_only_after_parting_message (world [] [] []) 1 boot).
  vm_compute. reflexivity.
Defined.

End MoreWitnesses.
